(** * Browser monitor: capture, correlation and snapshot engine

    A shallow embedding of [src/mcp_playwright/main.py]
    ([PlaywrightBrowserManager] and the tool wrappers around it), and the
    properties of the event capture and correlation engine checked against it.

    Conventions of the embedding.
    - A Python dict built from a fixed set of keys is a record; a key that
      some construction site leaves out is an [option] field ([None] = key
      absent).
    - A timestamp is a reading of the event loop's monotonic clock.  The
      program only stores, compares and sorts these readings, so they are
      taken in [Z] with its order.
    - Text is a byte string (UTF-8); [lower] lowers ASCII letters only,
      which agrees with Python's [str.lower] on every test the program makes
      (membership of the ASCII word json).
    - An attribute read on a browser event object either yields a value or
      raises; such attributes have type [result _].
    - [re.search] and [json.loads] belong to the Python library, not to the
      program: they are the fields of the class [PyLib]. *)

From Stdlib Require Import ZArith Lia Ascii String List Sorted Permutation.
From stdpp Require Import base option list sorting strings gmap pretty.

Open Scope Z_scope.

(** ** Exceptions *)

(** The program distinguishes exceptions only through [hasattr], which
    swallows [AttributeError] and nothing else; [str(e)] is the message. *)
Inductive exn :=
  | AttributeError (msg : string)
  | Exception (msg : string).

Definition str_exn (e : exn) : string :=
  match e with AttributeError m | Exception m => m end.

Inductive result (A : Type) :=
  | Ok (a : A)
  | Raise (e : exn).
Arguments Ok {A} a.
Arguments Raise {A} e.

#[export] Instance result_ret : MRet result := fun A a => Ok a.
#[export] Instance result_bind : MBind result := fun A B f r =>
  match r with Ok a => f a | Raise e => Raise e end.

(** [try: body  except Exception as e: handler e] *)
Definition try_except {A} (body : result A) (handler : exn → result A) : result A :=
  match body with Ok a => Ok a | Raise e => handler e end.

(** [hasattr(obj, name)]: [False] exactly when reading the attribute raises
    [AttributeError]; any other exception propagates. *)
Definition hasattr {A} (attribute : result A) : result bool :=
  match attribute with
  | Ok _ => Ok true
  | Raise (AttributeError _) => Ok false
  | Raise e => Raise e
  end.

(** [obj.name if hasattr(obj, name) else default] *)
Definition attr_or {A} (attribute : result A) (default : A) : result A :=
  b ← hasattr attribute; if b : bool then attribute else Ok default.

Definition is_ok {A} (r : result A) : bool :=
  match r with Ok _ => true | Raise _ => false end.

(** ** Strings *)

Definition lower_ascii (c : ascii) : ascii :=
  let n := nat_of_ascii c in
  if ((65 <=? n) && (n <=? 90))%nat then ascii_of_nat (n + 32) else c.

Fixpoint lower (s : string) : string :=
  match s with
  | EmptyString => EmptyString
  | String c s' => String (lower_ascii c) (lower s')
  end.

(** [needle in hay] *)
Fixpoint contains (needle hay : string) : bool :=
  String.prefix needle hay ||
  match hay with
  | EmptyString => false
  | String _ hay' => contains needle hay'
  end.

(** [s.endswith(suffix)] *)
Definition endswith (s suffix : string) : bool :=
  let n := String.length s in
  let k := String.length suffix in
  (k <=? n)%nat && String.eqb (String.substring (n - k) k s) suffix.

(** Truthiness of a [str]. *)
Definition truthy_str (s : string) : bool := negb (String.eqb s "").

(** ** Sorting and slicing *)

Section Sorting.
Context {A : Type} (key : A → Z).

(** [precedes reverse x y]: [x] may stand before [y] in the output. *)
Definition precedes (reverse : bool) (x y : A) : bool :=
  if reverse then key y <=? key x else key x <=? key y.

(** The order the output of [sorted] respects. *)
Definition in_order (reverse : bool) (x y : A) : Prop :=
  if reverse then key y <= key x else key x <= key y.

Fixpoint insert_sorted (reverse : bool) (x : A) (l : list A) : list A :=
  match l with
  | [] => [x]
  | y :: l' =>
      if precedes reverse x y then x :: y :: l'
      else y :: insert_sorted reverse x l'
  end.

(** [sorted(l, key=key, reverse=reverse)] and [l.sort(key=..., reverse=...)].
    Python's sort is stable, also with [reverse=True]; a stable sort has
    only one possible output, computed here by insertion from the right,
    each element going before the elements of equal key that followed it. *)
Definition sorted (reverse : bool) (l : list A) : list A :=
  foldr (insert_sorted reverse) [] l.

(** [l[:n]] for a Python int [n]: a negative [n] counts from the end. *)
Definition slice_to (n : Z) (l : list A) : list A :=
  if n <? 0 then take (Z.to_nat (Z.of_nat (length l) + n)) l
  else take (Z.to_nat n) l.

(** The truncation shared by both retrieval operations: newest first,
    keep the head, oldest first again. *)
Definition most_recent (last_n : Z) (l : list A) : list A :=
  sorted false (slice_to last_n (sorted true l)).
End Sorting.

(** ** Console log *)

(** [message.location] of the browser engine: a plain mapping. *)
Record location := {
  loc_url : string;
  loc_lineNumber : Z;
  loc_columnNumber : Z;
}.

(** The console event object handed to the listener. *)
Record console_message := {
  msg_type : result string;
  msg_text : result string;
  msg_location : result location;
}.

(** An element of [self.console_logs].  The record built in the [except]
    arm of the handler has no [location] key. *)
Record log_entry := {
  log_type : string;
  log_text : string;
  log_location : option location;
  log_timestamp : Z;
}.

(** An element of the list returned by [get_console_logs].  The keys
    [stackTrace], [args] and [page] are copied only when the log entry has
    them, and no entry the handler builds does. *)
Record log_group := {
  g_type : string;
  g_text : string;
  g_location : option location;
  g_timestamp : Z;
  g_count : Z;
  g_timestamps : list Z;
}.

Definition console_error_prefix : string := "处理控制台消息时出错: ".

(** The dict literal of the [try] block: the three attributes are read in
    order, then the clock. *)
Definition console_entry (now : Z) (message : console_message) : result log_entry :=
  type ← msg_type message;
  text ← msg_text message;
  loc ← msg_location message;
  Ok {| log_type := type; log_text := text;
        log_location := Some loc; log_timestamp := now |}.

(** The record appended in the [except] arm. *)
Definition degraded_console_entry (now : Z) (e : exn) : log_entry :=
  {| log_type := "error";
     log_text := console_error_prefix +:+ str_exn e;
     log_location := None;
     log_timestamp := now |}.

(** [_handle_console_message]; [now] is the reading of
    [asyncio.get_event_loop().time()].  It is read once on either path: in
    the [try] block it comes after the three attribute reads, the only
    steps that can raise. *)
Definition _handle_console_message (now : Z) (message : console_message)
    (console_logs : list log_entry) : result (list log_entry) :=
  try_except
    (log_entry ← console_entry now message;
     Ok (console_logs ++ [log_entry]))
    (fun e => Ok (console_logs ++ [degraded_console_entry now e])).

(** The text of a group that absorbed a repeat:
    [f"{log.get('text')} (重复 {count} 次)"]. *)
Definition repeated_text (text : string) (count : Z) : string :=
  text +:+ " (重复 " +:+ pretty count +:+ " 次)".

Definition new_group (log : log_entry) : log_group :=
  {| g_type := log_type log; g_text := log_text log;
     g_location := log_location log; g_timestamp := log_timestamp log;
     g_count := 1; g_timestamps := [log_timestamp log] |}.

(** The repeat arm: count, timestamps and text of the current group are
    updated in place. *)
Definition absorb (current_group : log_group) (log : log_entry) : log_group :=
  let count := g_count current_group + 1 in
  {| g_type := g_type current_group;
     g_text := if 1 <? count then repeated_text (log_text log) count
               else g_text current_group;
     g_location := g_location current_group;
     g_timestamp := g_timestamp current_group;
     g_count := count;
     g_timestamps := g_timestamps current_group ++ [log_timestamp log] |}.

(** One iteration of the grouping loop.  [current_group] is always the dict
    appended last to [deduplicated_logs] (the two names alias one object),
    and is [None] exactly when the list is still empty; so the loop state
    is the list alone and the current group is its last element. *)
Definition dedup_step (deduplicated_logs : list log_group) (log : log_entry)
    : list log_group :=
  match last deduplicated_logs with
  | None => deduplicated_logs ++ [new_group log]
  | Some current_group =>
      if negb (String.eqb (log_type log) (g_type current_group))
         || negb (String.eqb (log_text log) (g_text current_group))
      then deduplicated_logs ++ [new_group log]
      else removelast deduplicated_logs ++ [absorb current_group log]
  end.

Definition deduplicate (sorted_logs : list log_entry) : list log_group :=
  fold_left dedup_step sorted_logs [].

(** [get_console_logs].  [copy.deepcopy] of a dict of plain data returns an
    equal dict, so [safe_logs] is the store itself. *)
Definition get_console_logs (last_n : Z) (console_logs : list log_entry)
    : list log_group :=
  match console_logs with
  | [] => []
  | _ =>
      let safe_logs := console_logs in
      let sorted_logs := sorted log_timestamp false safe_logs in
      let deduplicated_logs := deduplicate sorted_logs in
      most_recent g_timestamp last_n deduplicated_logs
  end.

(** ** The Python library *)

Class PyLib := {
  (** what [json.loads] returns *)
  json : Type;
  (** [json.loads(s)]; [None] when it raises [JSONDecodeError] *)
  json_loads : string → option json;
  (** truth value of [re.search(pattern, url)]; raises [re.error] on a
      pattern that is not a regular expression *)
  re_search : string → string → result bool;
}.

(** ** Network capture *)

(** [self.request_capture_config] *)
Record capture_config := {
  enabled : bool;
  include_patterns : list string;
  exclude_patterns : list string;
  include_types : list string;
  exclude_types : list string;
  capture_post_data : bool;
  capture_response_body : bool;
}.

(** The value set in [__init__]. *)
Definition default_config : capture_config :=
  {| enabled := true; include_patterns := []; exclude_patterns := [];
     include_types := []; exclude_types := [];
     capture_post_data := true; capture_response_body := true |}.

(** The arguments of the tool [configure_network_capture]; [None] leaves the
    field as it is. *)
Record config_updates := {
  upd_enabled : option bool;
  upd_include_patterns : option (list string);
  upd_exclude_patterns : option (list string);
  upd_include_types : option (list string);
  upd_exclude_types : option (list string);
  upd_capture_post_data : option bool;
  upd_capture_response_body : option bool;
}.

(** [configure_request_capture]: [dict.update] with the keys given. *)
Definition configure_request_capture (u : config_updates) (c : capture_config)
    : capture_config :=
  {| enabled := default (enabled c) (upd_enabled u);
     include_patterns := default (include_patterns c) (upd_include_patterns u);
     exclude_patterns := default (exclude_patterns c) (upd_exclude_patterns u);
     include_types := default (include_types c) (upd_include_types u);
     exclude_types := default (exclude_types c) (upd_exclude_types u);
     capture_post_data := default (capture_post_data c) (upd_capture_post_data u);
     capture_response_body :=
       default (capture_response_body c) (upd_capture_response_body u) |}.

(** The request event object of the browser engine. *)
Record request := {
  request_url : result string;
  request_method : result string;
  request_headers : result (gmap string string);
  request_resource_type : result string;
  (** [None] or the body text *)
  request_post_data : result (option string);
  (** [id(request)] *)
  request_id : Z;
}.

(** The response event object; [response_text] is what awaiting
    [response.text()] gives. *)
Record response := {
  response_url : result string;
  response_status : result Z;
  response_status_text : result string;
  response_headers : result (gmap string string);
  response_text : result string;
}.

(** [resource_type in types] *)
Definition in_types (resource_type : string) (types : list string) : bool :=
  existsb (String.eqb resource_type) types.

(** [headers.get('content-type', '')] *)
Definition content_type_of (headers : gmap string string) : string :=
  default ""%string (headers !! "content-type"%string).

Section Network.
Context {L : PyLib}.

(** The dict [response_data] stored under the key [response]. *)
Record response_entry := {
  resp_status : Z;
  resp_statusText : option string;
  resp_headers : option (gmap string string);
  resp_timestamp : Z;
  resp__is_json : option bool;
  resp__response_obj : option response;
  resp_body : option json;
  resp_bodyText : option string;
  resp_body_error : option string;
  resp_error : option string;
}.

(** An element of [self.network_requests], and of the list returned by
    [get_network_requests].  Every dict literal of the program that
    builds one has the keys [url], [method] and [timestamp]. *)
Record request_entry := {
  entry_url : string;
  entry_method : string;
  entry_headers : option (gmap string string);
  entry_timestamp : Z;
  entry_resourceType : option string;
  entry_id : option Z;
  entry_postData : option string;
  entry_postDataJSON : option json;
  entry_response : option response_entry;
  entry_error : option string;
}.

(** *** Capture filter *)

(** The loop over [include_patterns], leaving at the first match. *)
Fixpoint matches_include (patterns : list string) (url : string) : result bool :=
  match patterns with
  | [] => Ok false
  | pattern :: rest =>
      found ← re_search pattern url;
      if found : bool then Ok true else matches_include rest url
  end.

(** The loop over [exclude_patterns], returning [False] at the first
    match; the value is whether the loop ran to its end. *)
Fixpoint passes_exclude (patterns : list string) (url : string) : result bool :=
  match patterns with
  | [] => Ok true
  | pattern :: rest =>
      found ← re_search pattern url;
      if found : bool then Ok false else passes_exclude rest url
  end.

Definition _should_capture_request (config : capture_config) (request : request)
    : result bool :=
  if negb (enabled config) then Ok false else
  url ← request_url request;
  resource_type ← request_resource_type request;
  if negb (bool_decide (include_types config = []))
     && negb (in_types resource_type (include_types config))
  then Ok false else
  if in_types resource_type (exclude_types config) then Ok false else
  included ←
    (if negb (bool_decide (include_patterns config = []))
     then matches_include (include_patterns config) url
     else Ok true);
  if negb included then Ok false else
  passes_exclude (exclude_patterns config) url.

(** *** Request handler *)

(** [entry["postData"] = data] *)
Definition set_postData (data : string) (entry : request_entry) : request_entry :=
  {| entry_url := entry_url entry; entry_method := entry_method entry;
     entry_headers := entry_headers entry;
     entry_timestamp := entry_timestamp entry;
     entry_resourceType := entry_resourceType entry;
     entry_id := entry_id entry;
     entry_postData := Some data;
     entry_postDataJSON := entry_postDataJSON entry;
     entry_response := entry_response entry;
     entry_error := entry_error entry |}.

(** [entry["postDataJSON"] = parsed] *)
Definition set_postDataJSON (parsed : json) (entry : request_entry) : request_entry :=
  {| entry_url := entry_url entry; entry_method := entry_method entry;
     entry_headers := entry_headers entry;
     entry_timestamp := entry_timestamp entry;
     entry_resourceType := entry_resourceType entry;
     entry_id := entry_id entry;
     entry_postData := entry_postData entry;
     entry_postDataJSON := Some parsed;
     entry_response := entry_response entry;
     entry_error := entry_error entry |}.

(** [entry["response"] = response_data] *)
Definition set_response (response_data : response_entry) (entry : request_entry)
    : request_entry :=
  {| entry_url := entry_url entry; entry_method := entry_method entry;
     entry_headers := entry_headers entry;
     entry_timestamp := entry_timestamp entry;
     entry_resourceType := entry_resourceType entry;
     entry_id := entry_id entry;
     entry_postData := entry_postData entry;
     entry_postDataJSON := entry_postDataJSON entry;
     entry_response := Some response_data;
     entry_error := entry_error entry |}.

(** The block guarded by
    [config["capture_post_data"] and request.post_data]. *)
Definition with_post_data (config : capture_config) (request : request)
    (headers : gmap string string) (entry : request_entry)
    : result request_entry :=
  if capture_post_data config then
    post_data ← request_post_data request;
    match post_data with
    | Some data =>
        if truthy_str data then
          let entry := set_postData data entry in
          if contains "json" (lower (content_type_of headers)) then
            (* try: entry["postDataJSON"] = json.loads(data)  except: pass *)
            match json_loads data with
            | Some parsed => Ok (set_postDataJSON parsed entry)
            | None => Ok entry
            end
          else Ok entry
        else Ok entry
    | None => Ok entry
    end
  else Ok entry.

(** [_handle_request].  [now] is the clock read inside the [try] block,
    [now_except] the one read in the [except] arm (attribute reads that
    follow the first can still raise). *)
Definition _handle_request (config : capture_config) (now now_except : Z)
    (request : request) (network_requests : list request_entry)
    : result (list request_entry) :=
  capture ← _should_capture_request config request;
  if negb capture then Ok network_requests else
  try_except
    (url ← request_url request;
     method ← request_method request;
     headers ← request_headers request;
     resource_type ← request_resource_type request;
     let entry :=
       {| entry_url := url; entry_method := method;
          entry_headers := Some headers; entry_timestamp := now;
          entry_resourceType := Some resource_type;
          entry_id := Some (request_id request);
          entry_postData := None; entry_postDataJSON := None;
          entry_response := None; entry_error := None |} in
     entry ← with_post_data config request headers entry;
     Ok (network_requests ++ [entry]))
    (fun e =>
       url ← attr_or (request_url request) "unknown"%string;
       method ← attr_or (request_method request) "ERROR"%string;
       Ok (network_requests ++
             [{| entry_url := url; entry_method := method;
                 entry_headers := None; entry_timestamp := now_except;
                 entry_resourceType := None; entry_id := None;
                 entry_postData := None; entry_postDataJSON := None;
                 entry_response := None;
                 entry_error := Some (str_exn e) |}])).

(** *** Response handler *)

(** [request.get("url") == url and "response" not in request] *)
Definition unmatched (url : string) (request : request_entry) : bool :=
  String.eqb (entry_url request) url
  && negb (bool_decide (is_Some (entry_response request))).

(** The loop that sets [request["response"]] on the first unmatched request
    with the URL and breaks. *)
Fixpoint attach (url : string) (response_data : response_entry)
    (network_requests : list request_entry) : list request_entry :=
  match network_requests with
  | [] => []
  | request :: rest =>
      if unmatched url request then set_response response_data request :: rest
      else request :: attach url response_data rest
  end.

(** [response_data] as first built. *)
Definition basic_response_data (status : Z) (status_text : string)
    (headers : gmap string string) (now : Z) : response_entry :=
  {| resp_status := status; resp_statusText := Some status_text;
     resp_headers := Some headers; resp_timestamp := now;
     resp__is_json := None; resp__response_obj := None;
     resp_body := None; resp_bodyText := None;
     resp_body_error := None; resp_error := None |}.

(** [response_data["_is_json"] = True; response_data["_response_obj"] = response] *)
Definition mark_json (response : response) (d : response_entry) : response_entry :=
  {| resp_status := resp_status d; resp_statusText := resp_statusText d;
     resp_headers := resp_headers d; resp_timestamp := resp_timestamp d;
     resp__is_json := Some true; resp__response_obj := Some response;
     resp_body := resp_body d; resp_bodyText := resp_bodyText d;
     resp_body_error := resp_body_error d; resp_error := resp_error d |}.

(** The record attached in the [except] arm. *)
Definition degraded_response_data (status : Z) (e : exn) (now : Z) : response_entry :=
  {| resp_status := status; resp_statusText := None;
     resp_headers := None; resp_timestamp := now;
     resp__is_json := None; resp__response_obj := None;
     resp_body := None; resp_bodyText := None;
     resp_body_error := None; resp_error := Some (str_exn e) |}.

(** [response_data] as it stands when the attaching loop starts: the basic
    data, marked for body resolution when bodies are captured and the
    content type or the URL says JSON. *)
Definition build_response_data (config : capture_config) (url : string)
    (response : response) (status : Z) (status_text : string)
    (headers : gmap string string) (now : Z) : response_entry :=
  let response_data := basic_response_data status status_text headers now in
  if capture_response_body config then
    let content_type := content_type_of headers in
    if contains "json" (lower content_type) || endswith url ".json"
    then mark_json response response_data
    else response_data
  else response_data.

(** [_handle_response].  [response.url] is first read in the condition of
    the first loop, so not at all on an empty store.  The clock is read once
    on either path: in the [try] block after the last step that can raise.
    In the [except] arm the replacement record is built when the loop
    reaches the unmatched request, which the first loop found to exist. *)
Definition _handle_response (config : capture_config) (now : Z)
    (response : response) (network_requests : list request_entry)
    : result (list request_entry) :=
  match network_requests with
  | [] => Ok network_requests
  | _ =>
      url ← response_url response;
      let request_captured := existsb (unmatched url) network_requests in
      if negb request_captured then Ok network_requests else
      try_except
        (status ← response_status response;
         status_text ← response_status_text response;
         headers ← response_headers response;
         let response_data :=
           build_response_data config url response status status_text headers now in
         Ok (attach url response_data network_requests))
        (fun e =>
           (* try: ...  except: pass *)
           try_except
             (status ← attr_or (response_status response) 0;
              Ok (attach url (degraded_response_data status e now)
                    network_requests))
             (fun _ => Ok network_requests))
  end.

(** *** Body resolution and retrieval *)

(** [response.get("_is_json") and "_response_obj" in response] *)
Definition pending (d : response_entry) : bool :=
  default false (resp__is_json d)
  && bool_decide (is_Some (resp__response_obj d)).

(** The [try] block of the resolution pass on one response: the body is
    stored parsed, or as text when it is not JSON; a failed fetch leaves
    [body_error].  The second component tells whether [processed_count]
    is incremented. *)
Definition fetch_body (response_obj : response) (d : response_entry)
    : response_entry * bool :=
  match response_text response_obj with
  | Ok text =>
      match json_loads text with
      | Some json_data =>
          ({| resp_status := resp_status d; resp_statusText := resp_statusText d;
              resp_headers := resp_headers d; resp_timestamp := resp_timestamp d;
              resp__is_json := resp__is_json d;
              resp__response_obj := resp__response_obj d;
              resp_body := Some json_data; resp_bodyText := resp_bodyText d;
              resp_body_error := resp_body_error d; resp_error := resp_error d |},
           true)
      | None =>
          ({| resp_status := resp_status d; resp_statusText := resp_statusText d;
              resp_headers := resp_headers d; resp_timestamp := resp_timestamp d;
              resp__is_json := resp__is_json d;
              resp__response_obj := resp__response_obj d;
              resp_body := resp_body d; resp_bodyText := Some text;
              resp_body_error := resp_body_error d; resp_error := resp_error d |},
           true)
      end
  | Raise e =>
      ({| resp_status := resp_status d; resp_statusText := resp_statusText d;
          resp_headers := resp_headers d; resp_timestamp := resp_timestamp d;
          resp__is_json := resp__is_json d;
          resp__response_obj := resp__response_obj d;
          resp_body := resp_body d; resp_bodyText := resp_bodyText d;
          resp_body_error := Some (str_exn e); resp_error := resp_error d |},
       false)
  end.

(** The [finally] block: both temporary keys are deleted. *)
Definition strip_pending (d : response_entry) : response_entry :=
  {| resp_status := resp_status d; resp_statusText := resp_statusText d;
     resp_headers := resp_headers d; resp_timestamp := resp_timestamp d;
     resp__is_json := None; resp__response_obj := None;
     resp_body := resp_body d; resp_bodyText := resp_bodyText d;
     resp_body_error := resp_body_error d; resp_error := resp_error d |}.

(** The body of the loop of [_process_json_responses]. *)
Definition resolve_entry (request : request_entry) : request_entry * bool :=
  match entry_response request with
  | Some d =>
      if pending d then
        match resp__response_obj d with
        | Some response_obj =>
            let '(d', processed) := fetch_body response_obj d in
            (set_response (strip_pending d') request, processed)
        | None => (request, false)
        end
      else (request, false)
  | None => (request, false)
  end.

(** [_process_json_responses]: the store after the pass and
    [processed_count].  The pass is taken as one step: no listener runs
    while a body fetch is awaited. *)
Fixpoint _process_json_responses (network_requests : list request_entry)
    : list request_entry * Z :=
  match network_requests with
  | [] => ([], 0)
  | request :: rest =>
      let '(request', processed) := resolve_entry request in
      let '(rest', processed_count) := _process_json_responses rest in
      (request' :: rest', if processed then processed_count + 1 else processed_count)
  end.

(** [clean_response]: the six allow-listed keys, each when present. *)
Definition clean_response (d : response_entry) : response_entry :=
  {| resp_status := resp_status d; resp_statusText := resp_statusText d;
     resp_headers := resp_headers d; resp_timestamp := resp_timestamp d;
     resp__is_json := None; resp__response_obj := None;
     resp_body := resp_body d; resp_bodyText := resp_bodyText d;
     resp_body_error := None; resp_error := None |}.

(** [clean_req].  Copying keys between dicts of plain data cannot raise, so
    the [except] arm of the copy loop is never taken. *)
Definition clean_request (req : request_entry) : request_entry :=
  {| entry_url := entry_url req; entry_method := entry_method req;
     entry_headers := entry_headers req;
     entry_timestamp := entry_timestamp req;
     entry_resourceType := entry_resourceType req;
     entry_id := entry_id req;
     entry_postData := entry_postData req;
     entry_postDataJSON := entry_postDataJSON req;
     entry_response := clean_response <$> entry_response req;
     entry_error := None |}.

(** [get_network_requests]: the list returned and the store it leaves. *)
Definition get_network_requests (last_n : Z) (network_requests : list request_entry)
    : list request_entry * list request_entry :=
  match network_requests with
  | [] => ([], network_requests)
  | _ =>
      let '(network_requests, processed_count) :=
        _process_json_responses network_requests in
      let clean_requests := map clean_request network_requests in
      (most_recent entry_timestamp last_n clean_requests, network_requests)
  end.

(** ** Session lifecycle *)

(** The objects of the browser engine the manager holds, each with the
    outcome of the calls the program makes on it. *)
Record page_handle := {
  page_close : result unit;
  page_goto : string → result unit;
}.

Record browser_handle := {
  browser_close : result unit;
  browser_new_page : result page_handle;
}.

Record playwright_handle := {
  playwright_stop : result unit;
  (** [chromium.launch(headless=...)] *)
  chromium_launch : bool → result browser_handle;
}.

(** The attributes of a [PlaywrightBrowserManager]; [headless] exists only
    once [initialize] has run. *)
Record manager := {
  playwright : option playwright_handle;
  browser : option browser_handle;
  page : option page_handle;
  console_logs : list log_entry;
  network_requests : list request_entry;
  is_initialized : bool;
  headless : option bool;
  request_capture_config : capture_config;
}.

(** [__init__] *)
Definition initial : manager :=
  {| playwright := None; browser := None; page := None;
     console_logs := []; network_requests := [];
     is_initialized := false; headless := None;
     request_capture_config := default_config |}.

Definition set_playwright (v : option playwright_handle) (self : manager) : manager :=
  {| playwright := v; browser := browser self; page := page self;
     console_logs := console_logs self; network_requests := network_requests self;
     is_initialized := is_initialized self; headless := headless self;
     request_capture_config := request_capture_config self |}.

Definition set_browser (v : option browser_handle) (self : manager) : manager :=
  {| playwright := playwright self; browser := v; page := page self;
     console_logs := console_logs self; network_requests := network_requests self;
     is_initialized := is_initialized self; headless := headless self;
     request_capture_config := request_capture_config self |}.

Definition set_page (v : option page_handle) (self : manager) : manager :=
  {| playwright := playwright self; browser := browser self; page := v;
     console_logs := console_logs self; network_requests := network_requests self;
     is_initialized := is_initialized self; headless := headless self;
     request_capture_config := request_capture_config self |}.

Definition set_console_logs (v : list log_entry) (self : manager) : manager :=
  {| playwright := playwright self; browser := browser self; page := page self;
     console_logs := v; network_requests := network_requests self;
     is_initialized := is_initialized self; headless := headless self;
     request_capture_config := request_capture_config self |}.

Definition set_network_requests (v : list request_entry) (self : manager) : manager :=
  {| playwright := playwright self; browser := browser self; page := page self;
     console_logs := console_logs self; network_requests := v;
     is_initialized := is_initialized self; headless := headless self;
     request_capture_config := request_capture_config self |}.

Definition set_is_initialized (v : bool) (self : manager) : manager :=
  {| playwright := playwright self; browser := browser self; page := page self;
     console_logs := console_logs self; network_requests := network_requests self;
     is_initialized := v; headless := headless self;
     request_capture_config := request_capture_config self |}.

Definition set_headless (v : option bool) (self : manager) : manager :=
  {| playwright := playwright self; browser := browser self; page := page self;
     console_logs := console_logs self; network_requests := network_requests self;
     is_initialized := is_initialized self; headless := v;
     request_capture_config := request_capture_config self |}.

Definition set_request_capture_config (v : capture_config) (self : manager) : manager :=
  {| playwright := playwright self; browser := browser self; page := page self;
     console_logs := console_logs self; network_requests := network_requests self;
     is_initialized := is_initialized self; headless := headless self;
     request_capture_config := v |}.

(** A method of the manager: it returns or raises, and leaves the manager
    in the state reached until then. *)
Definition method (A : Type) : Type := manager → result A * manager.

#[export] Instance method_ret : MRet method := fun A a self => (Ok a, self).
#[export] Instance method_bind : MBind method := fun A B k c self =>
  match c self with
  | (Ok a, self') => k a self'
  | (Raise e, self') => (Raise e, self')
  end.

(** Reading [self]. *)
Definition get_self : method manager := fun self => (Ok self, self).
(** An assignment to attributes of [self]. *)
Definition assign (f : manager → manager) : method unit := fun self => (Ok (), f self).
(** A call whose outcome [r] is given. *)
Definition call {A} (r : result A) : method A := fun self => (r, self).

(** [initialize]; [start] is the outcome of [async_playwright().start()]. *)
Definition initialize (start : result playwright_handle) (headless : bool)
    : method unit :=
  _ ← assign (set_headless (Some headless));
  self ← get_self;
  if is_initialized self then mret () else
  pw ← call start;
  _ ← assign (set_playwright (Some pw));
  let launch_headless := if headless then true else false in
  b ← call (chromium_launch pw launch_headless);
  _ ← assign (set_browser (Some b));
  assign (set_is_initialized true).

(** [close] *)
Definition close : method unit :=
  self ← get_self;
  _ ← match page self with
      | Some p => _ ← call (page_close p); assign (set_page None)
      | None => mret ()
      end;
  _ ← match browser self with
      | Some b => _ ← call (browser_close b); assign (set_browser None)
      | None => mret ()
      end;
  _ ← match playwright self with
      | Some pw => _ ← call (playwright_stop pw); assign (set_playwright None)
      | None => mret ()
      end;
  _ ← assign (set_is_initialized false);
  _ ← assign (set_console_logs []);
  assign (set_network_requests []).

(** The listeners, on the manager. *)
Definition on_console (now : Z) (message : console_message) : method unit :=
  self ← get_self;
  logs ← call (_handle_console_message now message (console_logs self));
  assign (set_console_logs logs).

Definition on_request (now now_except : Z) (request : request) : method unit :=
  self ← get_self;
  requests ← call (_handle_request (request_capture_config self) now now_except
                     request (network_requests self));
  assign (set_network_requests requests).

Definition on_response (now : Z) (response : response) : method unit :=
  self ← get_self;
  requests ← call (_handle_response (request_capture_config self) now
                     response (network_requests self));
  assign (set_network_requests requests).

(** An event of the page, as it reaches the listener registered for it. *)
Inductive page_event :=
  | OnConsole (now : Z) (message : console_message)
  | OnRequest (now now_except : Z) (request : request)
  | OnResponse (now : Z) (response : response).

Definition listen (ev : page_event) : method unit :=
  match ev with
  | OnConsole now message => on_console now message
  | OnRequest now now_except request => on_request now now_except request
  | OnResponse now response => on_response now response
  end.

(** The events the page fires while a call is awaited reach the listeners
    one after the other.  A listener that raises does so to the engine's
    dispatcher, not to the awaiting call; it leaves the manager as it was. *)
Fixpoint deliver (events : list page_event) (self : manager) : manager :=
  match events with
  | [] => self
  | ev :: rest => deliver rest (listen ev self).2
  end.

(** [open_url].  The three listeners are registered on the new page before
    the navigation is awaited, so the events of the navigation itself
    ([navigation]: the document request, its response, what the page logs
    while loading, until the network is idle or the navigation fails) are
    recorded before [open_url] returns or raises.  The events that follow
    are separate steps of [event]. *)
Definition open_url (start : result playwright_handle) (url : string)
    (headless : bool) (navigation : list page_event) : method string :=
  self ← get_self;
  _ ← (if negb (is_initialized self) then initialize start headless else mret ());
  self ← get_self;
  _ ← match page self with
      | Some p => call (page_close p)
      | None => mret ()
      end;
  _ ← assign (set_console_logs []);
  _ ← assign (set_network_requests []);
  p ← match browser self with
      | Some b => call (browser_new_page b)
      | None => call (Raise (AttributeError
                  "'NoneType' object has no attribute 'new_page'"))
      end;
  _ ← assign (set_page (Some p));
  _ ← assign (deliver navigation);
  _ ← call (page_goto p url);
  mret ("Opened " +:+ url +:+
        " successfully. The browser window will remain open for you to interact with.").

Definition tool_get_console_logs (last_n : Z) : method (list log_group) :=
  self ← get_self;
  mret (get_console_logs last_n (console_logs self)).

Definition tool_get_network_requests (last_n : Z) : method (list request_entry) :=
  self ← get_self;
  let '(returned, requests) := get_network_requests last_n (network_requests self) in
  _ ← assign (set_network_requests requests);
  mret returned.

Definition close_browser : method string :=
  _ ← close;
  mret "浏览器已成功关闭"%string.

Definition configure_network_capture (updates : config_updates)
    : method capture_config :=
  self ← get_self;
  let config := configure_request_capture updates (request_capture_config self) in
  _ ← assign (set_request_capture_config config);
  mret config.

(** What can happen to a manager: a browser event reaches a listener, or
    a tool is called.  A call of [open_browser] comes with the events the
    page fires while its navigation is awaited. *)
Inductive event :=
  | ConsoleEvent (now : Z) (message : console_message)
  | RequestEvent (now now_except : Z) (request : request)
  | ResponseEvent (now : Z) (response : response)
  | OpenBrowser (start : result playwright_handle) (url : string) (headless : bool)
      (navigation : list page_event)
  | GetConsoleLogs (last_n : Z)
  | GetNetworkRequests (last_n : Z)
  | CloseBrowser
  | ConfigureNetworkCapture (updates : config_updates).

Definition step (ev : event) (self : manager) : manager :=
  match ev with
  | ConsoleEvent now message => snd (on_console now message self)
  | RequestEvent now now_except request => snd (on_request now now_except request self)
  | ResponseEvent now response => snd (on_response now response self)
  | OpenBrowser start url headless navigation =>
      snd (open_url start url headless navigation self)
  | GetConsoleLogs last_n => snd (tool_get_console_logs last_n self)
  | GetNetworkRequests last_n => snd (tool_get_network_requests last_n self)
  | CloseBrowser => snd (close_browser self)
  | ConfigureNetworkCapture updates => snd (configure_network_capture updates self)
  end.

(** The manager after a history of events, from the state [__init__] leaves. *)
Definition run (history : list event) : manager :=
  fold_left (fun self ev => step ev self) history initial.

(** An event of the page, as an event of its own. *)
Definition as_event (ev : page_event) : event :=
  match ev with
  | OnConsole now message => ConsoleEvent now message
  | OnRequest now now_except request => RequestEvent now now_except request
  | OnResponse now response => ResponseEvent now response
  end.

End Network.

(** ** Predicates of the statements *)

Section Statements.
Context {L : PyLib}.

(** The truth value of a search that does not raise. *)
Definition url_matches (url pattern : string) : bool :=
  match re_search pattern url with Ok found => found | Raise _ => false end.

(** The capture filter in the words of the specification (4.1), on a
    request with the given resource type and URL. *)
Definition spec_should_capture (config : capture_config)
    (resource_type url : string) : bool :=
  if negb (enabled config) then false
  else if negb (bool_decide (include_types config = []))
          && negb (bool_decide (resource_type ∈ include_types config))
  then false
  else if bool_decide (resource_type ∈ exclude_types config) then false
  else if negb (bool_decide (include_patterns config = []))
          && negb (existsb (url_matches url) (include_patterns config))
  then false
  else if existsb (url_matches url) (exclude_patterns config) then false
  else true.

(** A stored request after the resolution pass. *)
Definition resolved (request : request_entry) : request_entry :=
  (resolve_entry request).1.

(** Neither temporary key of a response is present. *)
Definition no_handle (d : response_entry) : Prop :=
  resp__is_json d = None ∧ resp__response_obj d = None.

(** Only allow-listed keys are present. *)
Definition plain_response (d : response_entry) : Prop :=
  no_handle d ∧ resp_body_error d = None ∧ resp_error d = None.

Definition plain_request (e : request_entry) : Prop :=
  entry_error e = None ∧
  ∀ d, entry_response e = Some d → plain_response d.

(** The response of a request, when it has one, has no temporary key. *)
Definition stripped (r : request_entry) : Prop :=
  ∀ d, entry_response r = Some d → no_handle d.

(** The basic keys and the post data of [e] are those of [r]. *)
Definition same_request (e r : request_entry) : Prop :=
  entry_url e = entry_url r ∧ entry_method e = entry_method r ∧
  entry_headers e = entry_headers r ∧
  entry_timestamp e = entry_timestamp r ∧
  entry_resourceType e = entry_resourceType r ∧
  entry_id e = entry_id r ∧
  entry_postData e = entry_postData r ∧
  entry_postDataJSON e = entry_postDataJSON r.

(** The two temporary keys come and go together. *)
Definition handles_paired (d : response_entry) : Prop :=
  pending d = true ∨ no_handle d.

Definition store_paired (store : list request_entry) : Prop :=
  ∀ r d, r ∈ store → entry_response r = Some d → handles_paired d.

(** Ascending timestamps. *)
Definition by_timestamp (a b : request_entry) : Prop :=
  entry_timestamp a <= entry_timestamp b.

End Statements.

(** ** Concrete data for the runs below *)

(** A console entry without location. *)
Definition entry_at (type text : string) (timestamp : Z) : log_entry :=
  {| log_type := type; log_text := text; log_location := None;
     log_timestamp := timestamp |}.

(** A console event whose [location] cannot be read. *)
Definition broken_message : console_message :=
  {| msg_type := Ok "warning"%string; msg_text := Ok "hello"%string;
     msg_location := Raise (Exception "boom") |}.

(** An instance of the library small enough to run: JSON cut down to its
    two boolean literals, and patterns without metacharacters, for which
    searching is finding a substring; an opening parenthesis alone is not a
    regular expression. *)
Definition sample_lib : PyLib :=
  {| json := bool;
     json_loads := fun s =>
       if String.eqb s "true" then Some true
       else if String.eqb s "false" then Some false
       else None;
     re_search := fun pattern url =>
       if String.eqb pattern "(" then
         Raise (Exception "missing ), unterminated subpattern at position 0")
       else Ok (contains pattern url) |}.

(** [json.dumps] for [sample_lib]. *)
Definition sample_dumps (j : bool) : string :=
  if j then "true"%string else "false"%string.

(** A request for a document. *)
Definition document_request : request :=
  {| request_url := Ok "https://example.test/api/items"%string;
     request_method := Ok "POST"%string;
     request_headers :=
       Ok {[ "content-type"%string := "application/JSON; charset=utf-8"%string ]};
     request_resource_type := Ok "document"%string;
     request_post_data := Ok (Some "true"%string);
     request_id := 140001 |}.

(** Documents under /api/, but nothing that mentions logout. *)
Definition api_documents : capture_config :=
  {| enabled := true; include_patterns := ["/api/"%string];
     exclude_patterns := ["logout"%string];
     include_types := ["document"%string]; exclude_types := [];
     capture_post_data := true; capture_response_body := true |}.

(** Documents only. *)
Definition documents_only : capture_config :=
  {| enabled := true; include_patterns := []; exclude_patterns := [];
     include_types := ["document"%string]; exclude_types := [];
     capture_post_data := true; capture_response_body := true |}.

(** A configuration whose only pattern is not a regular expression. *)
Definition ill_formed_pattern : capture_config :=
  {| enabled := true; include_patterns := ["("%string]; exclude_patterns := [];
     include_types := []; exclude_types := [];
     capture_post_data := true; capture_response_body := true |}.

(** Two polls of the same resource, and the answers to them. *)
Definition items_url : string := "https://example.test/api/items".

Definition items_request (id : Z) : request :=
  {| request_url := Ok items_url;
     request_method := Ok "GET"%string;
     request_headers := Ok ∅;
     request_resource_type := Ok "fetch"%string;
     request_post_data := Ok None;
     request_id := id |}.

Definition json_headers : gmap string string :=
  {[ "content-type"%string := "application/json"%string ]}.

Definition items_response (status : Z) (text : result string) : response :=
  {| response_url := Ok items_url;
     response_status := Ok status;
     response_status_text := Ok "OK"%string;
     response_headers := Ok json_headers;
     response_text := text |}.

(** A response to a request that was never seen. *)
Definition stray_response : response :=
  {| response_url := Ok "https://example.test/favicon.ico"%string;
     response_status := Ok 404;
     response_status_text := Ok "Not Found"%string;
     response_headers := Ok ∅;
     response_text := Ok ""%string |}.

(** A browser engine in which every call succeeds. *)
Definition quiet_page : page_handle :=
  {| page_close := Ok (); page_goto := λ _, Ok () |}.

Definition quiet_browser : browser_handle :=
  {| browser_close := Ok (); browser_new_page := Ok quiet_page |}.

Definition quiet_playwright : playwright_handle :=
  {| playwright_stop := Ok (); chromium_launch := λ _, Ok quiet_browser |}.

(** The entry the request listener stores for [items_request id] at [now]. *)
Definition stored_items (id now : Z) : request_entry (L := sample_lib) :=
  {| entry_url := items_url; entry_method := "GET";
     entry_headers := Some ∅; entry_timestamp := now;
     entry_resourceType := Some "fetch"%string; entry_id := Some id;
     entry_postData := None; entry_postDataJSON := None;
     entry_response := None; entry_error := None |}.

(** A session with a page open, a console message and two requests for
    the same URL still waiting for their responses. *)
Definition polling : list event :=
  [ OpenBrowser (Ok quiet_playwright) "https://example.test/" true [];
    ConsoleEvent 1 {| msg_type := Ok "log"%string; msg_text := Ok "ready"%string;
                      msg_location := Ok {| loc_url := "https://example.test/";
                                            loc_lineNumber := 3;
                                            loc_columnNumber := 9 |} |};
    RequestEvent 2 2 (items_request 7001);
    RequestEvent 3 3 (items_request 7002) ].

Definition two_waiting : manager (L := sample_lib) := run polling.

(** The same session once both responses have arrived. *)
Definition both_answered : manager (L := sample_lib) :=
  run (polling ++
       [ ResponseEvent 5 (items_response 200 (Ok "true"%string));
         ResponseEvent 6 (items_response 404 (Ok "oops"%string)) ]).

(** ** Concrete data for the further runs *)

(** A request whose headers cannot be read. *)
Definition headerless_request : request :=
  {| request_url := Ok "https://example.test/upload"%string;
     request_method := Ok "PUT"%string;
     request_headers := Raise (Exception "headers are gone");
     request_resource_type := Ok "xhr"%string;
     request_post_data := Ok None;
     request_id := 140003 |}.

(** A request for a script. *)
Definition script_request : request :=
  {| request_url := Ok "https://example.test/app.js"%string;
     request_method := Ok "GET"%string;
     request_headers := Ok ∅;
     request_resource_type := Ok "script"%string;
     request_post_data := Ok None;
     request_id := 140002 |}.

(** No scripts; the include pattern is not a regular expression. *)
Definition no_scripts : capture_config :=
  {| enabled := true; include_patterns := ["("%string]; exclude_patterns := [];
     include_types := []; exclude_types := ["script"%string];
     capture_post_data := true; capture_response_body := true |}.

(** An include pattern that matches the API, followed by one that is not
    a regular expression. *)
Definition api_then_garbage : capture_config :=
  {| enabled := true; include_patterns := ["/api/"%string; "("%string];
     exclude_patterns := ["logout"%string];
     include_types := []; exclude_types := [];
     capture_post_data := true; capture_response_body := true |}.

(** A response whose status text cannot be read, and one whose URL cannot. *)
Definition broken_response : response :=
  {| response_url := Ok items_url;
     response_status := Ok 502;
     response_status_text := Raise (Exception "no status text");
     response_headers := Ok ∅;
     response_text := Ok ""%string |}.

Definition unreadable_response : response :=
  {| response_url := Raise (Exception "response is gone");
     response_status := Ok 200;
     response_status_text := Ok "OK"%string;
     response_headers := Ok ∅;
     response_text := Ok ""%string |}.

(** An engine whose pages cannot navigate, and one that cannot be stopped. *)
Definition lost_page : page_handle :=
  {| page_close := Ok ();
     page_goto := λ _, Raise (Exception "net::ERR_NAME_NOT_RESOLVED") |}.

Definition lost_playwright : playwright_handle :=
  {| playwright_stop := Ok ();
     chromium_launch := λ _, Ok {| browser_close := Ok ();
                                   browser_new_page := Ok lost_page |} |}.

Definition stuck_playwright : playwright_handle :=
  {| playwright_stop := Raise (Exception "stop failed");
     chromium_launch := λ _, Ok quiet_browser |}.

(** A session on the engine that cannot be stopped. *)
Definition stuck_session : manager (L := sample_lib) :=
  run [ OpenBrowser (Ok stuck_playwright) "https://example.test/" false [];
        RequestEvent 2 2 (items_request 7001) ].

(** What a page fires while it loads: a request, the answer to it and a
    console message. *)
Definition loading : list page_event :=
  [ OnRequest 10 10 (items_request 7003);
    OnResponse 11 (items_response 200 (Ok "true"%string));
    OnConsole 12 {| msg_type := Ok "log"%string; msg_text := Ok "loaded"%string;
                    msg_location := Ok {| loc_url := "https://example.test/next";
                                          loc_lineNumber := 1;
                                          loc_columnNumber := 1 |} |} ].

(** Switching the capture off, and narrowing it to the API. *)
Definition switch_off : config_updates :=
  {| upd_enabled := Some false; upd_include_patterns := Some ["/api/"%string];
     upd_exclude_patterns := None; upd_include_types := None;
     upd_exclude_types := None; upd_capture_post_data := None;
     upd_capture_response_body := None |}.

(** ** The remaining tools *)

Section Tools.
Context {L : PyLib}.

(** The tool [open_browser]. *)
Definition open_browser (start : result playwright_handle) (url : string)
    (headless : bool) (navigation : list page_event) : method string :=
  open_url start url headless navigation.

(** The tool [get_network_capture_config]: a copy of the configuration. *)
Definition get_network_capture_config : method capture_config :=
  self ← get_self;
  mret (request_capture_config self).

End Tools.

(** The call of [configure_network_capture] without arguments. *)
Definition no_updates : config_updates :=
  {| upd_enabled := None; upd_include_patterns := None;
     upd_exclude_patterns := None; upd_include_types := None;
     upd_exclude_types := None; upd_capture_post_data := None;
     upd_capture_response_body := None |}.

(** Two updates in one: what [later] gives, else what [earlier] gives. *)
Definition later_wins (later earlier : config_updates) : config_updates :=
  {| upd_enabled := upd_enabled later ∪ upd_enabled earlier;
     upd_include_patterns := upd_include_patterns later ∪ upd_include_patterns earlier;
     upd_exclude_patterns := upd_exclude_patterns later ∪ upd_exclude_patterns earlier;
     upd_include_types := upd_include_types later ∪ upd_include_types earlier;
     upd_exclude_types := upd_exclude_types later ∪ upd_exclude_types earlier;
     upd_capture_post_data :=
       upd_capture_post_data later ∪ upd_capture_post_data earlier;
     upd_capture_response_body :=
       upd_capture_response_body later ∪ upd_capture_response_body earlier |}.

(** The events that empty the buffers. *)
Definition clears (ev : event) : bool :=
  match ev with
  | OpenBrowser _ _ _ _ | CloseBrowser => true
  | _ => false
  end.

(** The handles are held innermost last: no page without its browser, no
    browser without the engine. *)
Definition handles_nested {L : PyLib} (self : manager) : Prop :=
  (is_Some (page self) → is_Some (browser self)) ∧
  (is_Some (browser self) → is_Some (playwright self)).

(** ** Predicates of the further statements *)

(** The sum of the counts of a list of groups. *)
Definition total_count (groups : list log_group) : Z :=
  foldr (λ g n, g_count g + n) 0 groups.

(** Two console entries the grouping loop compares equal when neither has
    been absorbed yet. *)
Definition same_message (a b : log_entry) : Prop :=
  log_type a = log_type b ∧ log_text a = log_text b.

(** No entry repeats the type and text of the entry just before it. *)
Fixpoint no_repeat (logs : list log_entry) : Prop :=
  match logs with
  | a :: (b :: _) as rest => ¬ same_message a b ∧ no_repeat rest
  | _ => True
  end.

(** What the loop keeps true of every group: the count is the number of
    timestamps collected, at least one, and the group's own timestamp is the
    first of them. *)
Definition well_counted (g : log_group) : Prop :=
  1 <= g_count g ∧
  g_count g = Z.of_nat (length (g_timestamps g)) ∧
  head (g_timestamps g) = Some (g_timestamp g).

(** The counts of the groups a run of [k] equal entries is split into:
    pairs, and a single one when [k] is odd. *)
Definition pair_counts (k : nat) : list Z :=
  replicate (k / 2) 2 ++ replicate (k mod 2) 1.

(** Ascending group timestamps. *)
Definition groups_by_timestamp (a b : log_group) : Prop :=
  g_timestamp a <= g_timestamp b.

(** * Properties *)

(** ** Sorting and slicing *)

Section SortingFacts.
Context {A : Type} (key : A → Z).

Lemma precedes_in_order reverse x y :
  precedes key reverse x y = true ↔ in_order key reverse x y.
Proof. unfold precedes, in_order. destruct reverse; apply Z.leb_le. Qed.

Lemma in_order_total reverse x y : in_order key reverse x y ∨ in_order key reverse y x.
Proof. unfold in_order. destruct reverse; lia. Qed.

Lemma in_order_trans reverse x y z :
  in_order key reverse x y → in_order key reverse y z → in_order key reverse x z.
Proof. unfold in_order. destruct reverse; lia. Qed.

Lemma insert_sorted_perm reverse x l : insert_sorted key reverse x l ≡ₚ x :: l.
Proof.
  induction l as [|y l IH]; simpl; [done|].
  destruct (precedes key reverse x y); [done|].
  rewrite IH. apply perm_swap.
Qed.

Lemma sorted_perm reverse l : sorted key reverse l ≡ₚ l.
Proof.
  induction l as [|x l IH]; simpl; [done|].
  rewrite insert_sorted_perm. by rewrite IH.
Qed.

Lemma sorted_length reverse l : length (sorted key reverse l) = length l.
Proof. by rewrite sorted_perm. Qed.

Lemma insert_sorted_ordered reverse x l :
  StronglySorted (in_order key reverse) l →
  StronglySorted (in_order key reverse) (insert_sorted key reverse x l).
Proof.
  induction l as [|y l IH]; simpl; intros Hl.
  - repeat constructor.
  - apply StronglySorted_cons in Hl as [Hy Hl].
    destruct (precedes key reverse x y) eqn:Hxy.
    + apply precedes_in_order in Hxy.
      constructor; [by constructor|].
      constructor; [done|].
      eapply Forall_impl; [exact Hy|]. intros z Hz.
      by eapply in_order_trans.
    + assert (in_order key reverse y x) as Hyx.
      { destruct (in_order_total reverse x y) as [H|H]; [|done].
        apply precedes_in_order in H. congruence. }
      constructor; [by apply IH|].
      rewrite insert_sorted_perm. by constructor.
Qed.

Lemma sorted_ordered reverse l : StronglySorted (in_order key reverse) (sorted key reverse l).
Proof.
  induction l as [|x l IH]; simpl; [constructor|].
  by apply insert_sorted_ordered.
Qed.

Lemma slice_to_take n (l : list A) : ∃ m, slice_to n l = take m l ∧
  (0 <= n → m = Z.to_nat n) ∧
  (n < 0 → m = Z.to_nat (Z.of_nat (length l) + n)).
Proof.
  unfold slice_to. destruct (n <? 0) eqn:Hn.
  - apply Z.ltb_lt in Hn. eexists; split_and!; [done|lia|done].
  - apply Z.ltb_ge in Hn. eexists; split_and!; [done|done|lia].
Qed.

Lemma most_recent_ordered last_n (l : list A) :
  StronglySorted (in_order key false) (most_recent key last_n l).
Proof. apply sorted_ordered. Qed.

Lemma most_recent_submseteq last_n (l : list A) : most_recent key last_n l ⊆+ l.
Proof.
  unfold most_recent. rewrite sorted_perm.
  destruct (slice_to_take last_n (sorted key true l)) as (m & -> & _).
  etrans; [apply submseteq_take|]. by rewrite sorted_perm.
Qed.

Lemma most_recent_length_le last_n (l : list A) :
  0 <= last_n → (length (most_recent key last_n l) ≤ Z.to_nat last_n)%nat.
Proof.
  intros Hn. unfold most_recent. rewrite sorted_length.
  destruct (slice_to_take last_n (sorted key true l)) as (m & -> & Hm & _).
  rewrite (Hm Hn), length_take. lia.
Qed.

(** With a negative bound [-k] the [k] oldest are left out. *)
Lemma most_recent_negative (k : nat) (l : list A) :
  (0 < k < length l)%nat →
  ∃ dropped,
    l ≡ₚ dropped ++ most_recent key (- Z.of_nat k) l ∧
    length dropped = k ∧
    length (most_recent key (- Z.of_nat k) l) = (length l - k)%nat ∧
    ∀ d e, d ∈ dropped → e ∈ most_recent key (- Z.of_nat k) l → key d <= key e.
Proof.
  intros Hk. unfold most_recent.
  destruct (slice_to_take (- Z.of_nat k) (sorted key true l)) as (m & -> & _ & Hm).
  rewrite sorted_length in Hm.
  assert (m = (length l - k)%nat) as -> by lia.
  exists (drop (length l - k) (sorted key true l)). split_and!.
  - rewrite (sorted_perm false (take _ _)), (comm (++)), take_drop.
    symmetry. apply sorted_perm.
  - rewrite length_drop, sorted_length. lia.
  - rewrite sorted_length, length_take, sorted_length. lia.
  - intros d e Hd He. rewrite (sorted_perm false (take _ _)) in He.
    pose proof (sorted_ordered true l) as Hs.
    rewrite <-(take_drop (length l - k) (sorted key true l)) in Hs.
    by apply (StronglySorted_app_1_elem_of _ _ _ e d) in Hs.
Qed.

End SortingFacts.

(** ** Console log *)

(** The example of the specification: two equal entries, then another. *)
Example dedup_spec_example :
  get_console_logs 10
    [entry_at "info" "a" 1; entry_at "info" "a" 2; entry_at "warn" "b" 3]
  = [ {| g_type := "info"; g_text := "a (重复 2 次)"; g_location := None;
         g_timestamp := 1; g_count := 2; g_timestamps := [1; 2] |};
      {| g_type := "warn"; g_text := "b"; g_location := None;
         g_timestamp := 3; g_count := 1; g_timestamps := [3] |} ].
Proof. reflexivity. Qed.

Lemma append_nonempty_neq (s t : string) : t ≠ ""%string → s ≠ s +:+ t.
Proof.
  intros Ht. induction s as [|c s IH].
  - intros H. by apply Ht.
  - intros H. change (String c s = String c (s +:+ t)) in H.
    injection H as H. by apply IH.
Qed.

Lemma repeated_text_neq (text : string) (count : Z) :
  String.eqb text (repeated_text text count) = false.
Proof.
  apply String.eqb_neq. unfold repeated_text.
  apply append_nonempty_neq. discriminate.
Qed.

(** Once a group has absorbed a repeat its text carries the suffix, so the
    next entry of the run, whose text does not, is compared unequal and opens
    a group of its own: whatever the type, text, locations and timestamps,
    three equal entries in a row come out as two groups. *)
Lemma deduplicate_three_equal (type text : string) (l1 l2 l3 : option location)
    (t1 t2 t3 : Z) :
  deduplicate
    [ {| log_type := type; log_text := text; log_location := l1; log_timestamp := t1 |};
      {| log_type := type; log_text := text; log_location := l2; log_timestamp := t2 |};
      {| log_type := type; log_text := text; log_location := l3; log_timestamp := t3 |} ]
  = [ {| g_type := type; g_text := repeated_text text 2; g_location := l1;
         g_timestamp := t1; g_count := 2; g_timestamps := [t1; t2] |};
      {| g_type := type; g_text := text; g_location := l3;
         g_timestamp := t3; g_count := 1; g_timestamps := [t3] |} ].
Proof.
  unfold deduplicate, dedup_step; simpl.
  rewrite !String.eqb_refl; simpl.
  rewrite String.eqb_refl, repeated_text_neq; simpl.
  reflexivity.
Qed.

(** C1.  The grouping loop does not collapse a run of three equal console
    entries into one group of count 3: [get_console_logs] returns a group of
    count 2 followed by a second group of count 1 for the third entry; and
    so does the loop for any three equal entries in a row, whatever their
    type, text, locations and timestamps. *)
Theorem run_of_three_is_split :
  get_console_logs 100
    [entry_at "info" "a" 1; entry_at "info" "a" 2; entry_at "info" "a" 3]
  = [ {| g_type := "info"; g_text := "a (重复 2 次)"; g_location := None;
         g_timestamp := 1; g_count := 2; g_timestamps := [1; 2] |};
      {| g_type := "info"; g_text := "a"; g_location := None;
         g_timestamp := 3; g_count := 1; g_timestamps := [3] |} ] ∧
  ∀ type text l1 l2 l3 t1 t2 t3,
    map g_count
      (deduplicate
         [ {| log_type := type; log_text := text; log_location := l1;
              log_timestamp := t1 |};
           {| log_type := type; log_text := text; log_location := l2;
              log_timestamp := t2 |};
           {| log_type := type; log_text := text; log_location := l3;
              log_timestamp := t3 |} ])
    = [2; 1].
Proof.
  split; [reflexivity|].
  intros type text l1 l2 l3 t1 t2 t3.
  by rewrite deduplicate_three_equal.
Qed.

(** The degraded record does not keep the type and text of the event. *)
Lemma degraded_console_record_counterexample :
  console_entry 7 broken_message = Raise (Exception "boom") ∧
  msg_type broken_message = Ok "warning"%string ∧
  msg_text broken_message = Ok "hello"%string ∧
  _handle_console_message 7 broken_message []
  = Ok [ {| log_type := "error"; log_text := "处理控制台消息时出错: boom";
            log_location := None; log_timestamp := 7 |} ] ∧
  ¬ ∃ r, _handle_console_message 7 broken_message [] = Ok [r] ∧
         log_type r = "warning"%string ∧ log_text r = "hello"%string.
Proof.
  split_and!; try reflexivity.
  intros (r & Hr & Htype & _). vm_compute in Hr.
  injection Hr as <-. discriminate Htype.
Qed.

(** C6, amended.  The console listener never raises: it always appends
    exactly one record, stamped with the clock reading of the call.  When
    reading the fields of the event fails with an exception [e], the record
    appended has the type [error], the text made of the fixed prefix and the
    message of [e], no location, and that clock reading; the type and text
    of the event are not kept. *)
Theorem console_handler_never_raises (now : Z) (message : console_message)
    (logs : list log_entry) :
  (∃ r, _handle_console_message now message logs = Ok (logs ++ [r]) ∧
        log_timestamp r = now) ∧
  (∀ e, console_entry now message = Raise e →
        _handle_console_message now message logs
        = Ok (logs ++ [ {| log_type := "error";
                           log_text := console_error_prefix +:+ str_exn e;
                           log_location := None;
                           log_timestamp := now |} ])) ∧
  (∀ type text loc, msg_type message = Ok type → msg_text message = Ok text →
        msg_location message = Ok loc →
        _handle_console_message now message logs
        = Ok (logs ++ [ {| log_type := type; log_text := text;
                           log_location := Some loc;
                           log_timestamp := now |} ])).
Proof.
  unfold _handle_console_message, try_except, console_entry.
  split_and!.
  - destruct (msg_type message) as [type|e]; simpl.
    2: { by eexists. }
    destruct (msg_text message) as [text|e]; simpl.
    2: { by eexists. }
    destruct (msg_location message) as [loc|e]; simpl; by eexists.
  - intros e He.
    destruct (msg_type message) as [type|e1]; simpl in *.
    2: { by injection He as ->. }
    destruct (msg_text message) as [text|e2]; simpl in *.
    2: { by injection He as ->. }
    destruct (msg_location message) as [loc|e3]; simpl in *; [done|].
    by injection He as ->.
  - intros type text loc -> -> ->. reflexivity.
Qed.

Lemma console_handler_never_raises_witness :
  console_entry 7 broken_message = Raise (Exception "boom") ∧
  _handle_console_message 7 broken_message []
  = Ok [ {| log_type := "error"; log_text := "处理控制台消息时出错: boom";
            log_location := None; log_timestamp := 7 |} ].
Proof.
  split; [reflexivity|].
  exact (proj1 (proj2 (console_handler_never_raises 7 broken_message []))
           (Exception "boom") eq_refl).
Defined.

(** ** Network capture *)

Lemma prefix_lower (p s : string) :
  String.prefix p s = true → String.prefix (lower p) (lower s) = true.
Proof.
  revert s. induction p as [|c p IH]; intros [|d s]; simpl; try done.
  destruct (Ascii.ascii_dec c d) as [->|]; [|done].
  intros H. destruct (Ascii.ascii_dec _ _); [by apply IH|done].
Qed.

(** A content type that contains the word does so after lowering too. *)
Lemma contains_lower (needle hay : string) :
  contains needle hay = true → contains (lower needle) (lower hay) = true.
Proof.
  induction hay as [|c hay IH]; simpl.
  - rewrite !orb_false_r. apply (prefix_lower needle "").
  - intros [H|H]%orb_true_iff; apply orb_true_iff.
    + left. by apply (prefix_lower needle (String c hay)).
    + right. by apply IH.
Qed.

Section NetworkFacts.
Context {L : PyLib}.

Lemma in_types_elem_of (resource_type : string) (types : list string) :
  in_types resource_type types = bool_decide (resource_type ∈ types).
Proof.
  unfold in_types. induction types as [|t types IH].
  - symmetry. apply bool_decide_eq_false_2. set_solver.
  - cbn [existsb]. rewrite IH.
    destruct (String.eqb resource_type t) eqn:Heq; cbn [orb].
    + apply String.eqb_eq in Heq as ->.
      symmetry. apply bool_decide_eq_true_2. set_solver.
    + apply String.eqb_neq in Heq.
      apply bool_decide_ext. rewrite elem_of_cons.
      split; [by right|]. by intros [?|?].
Qed.

Lemma matches_include_exists (patterns : list string) (url : string) :
  (∀ p, p ∈ patterns → is_ok (re_search p url) = true) →
  matches_include patterns url = Ok (existsb (url_matches url) patterns).
Proof.
  induction patterns as [|p patterns IH]; simpl; intros Hok; [done|].
  unfold url_matches at 1.
  pose proof (Hok p ltac:(set_solver)) as Hp.
  destruct (re_search p url) as [[]|]; simpl in *; try done.
  apply IH. intros q Hq. apply Hok. set_solver.
Qed.

Lemma passes_exclude_exists (patterns : list string) (url : string) :
  (∀ p, p ∈ patterns → is_ok (re_search p url) = true) →
  passes_exclude patterns url = Ok (negb (existsb (url_matches url) patterns)).
Proof.
  induction patterns as [|p patterns IH]; simpl; intros Hok; [done|].
  unfold url_matches at 1.
  pose proof (Hok p ltac:(set_solver)) as Hp.
  destruct (re_search p url) as [[]|]; simpl in *; try done.
  apply IH. intros q Hq. apply Hok. set_solver.
Qed.

(** C2.  With capture disabled the filter answers false without looking at
    the request, and the request handler records nothing; on a request whose
    URL and resource type can be read, and with patterns that are regular
    expressions, the filter answers what the cascade of the specification
    answers: enabled, included types, excluded types, included patterns
    (by search), excluded patterns, else accept. *)
Theorem capture_filter_as_specified (config : capture_config) (request : request) :
  (enabled config = false → _should_capture_request config request = Ok false) ∧
  (enabled config = false →
     ∀ now now_except store,
       _handle_request config now now_except request store = Ok store) ∧
  (∀ url resource_type,
     request_url request = Ok url →
     request_resource_type request = Ok resource_type →
     (∀ p, p ∈ include_patterns config ++ exclude_patterns config →
           is_ok (re_search p url) = true) →
     _should_capture_request config request
     = Ok (spec_should_capture config resource_type url)).
Proof.
  split_and!.
  - intros He. unfold _should_capture_request. by rewrite He.
  - intros He now now_except store.
    unfold _handle_request, _should_capture_request. by rewrite He.
  - intros url resource_type Hurl Htype Hok.
    unfold _should_capture_request, spec_should_capture.
    destruct (enabled config); simpl; [|done].
    rewrite Hurl, Htype; simpl.
    rewrite !in_types_elem_of.
    destruct (negb (bool_decide (include_types config = []))
              && negb (bool_decide (resource_type ∈ include_types config)));
      [done|].
    destruct (bool_decide (resource_type ∈ exclude_types config)); [done|].
    rewrite passes_exclude_exists by (intros p Hp; apply Hok; set_solver).
    destruct (bool_decide (include_patterns config = [])) eqn:Hinc; simpl.
    + by destruct (existsb _ (exclude_patterns config)).
    + rewrite matches_include_exists by (intros p Hp; apply Hok; set_solver).
      simpl.
      destruct (existsb _ (include_patterns config)); simpl; [|done].
      by destruct (existsb _ (exclude_patterns config)).
Qed.
End NetworkFacts.

(** The example of the specification: with [include_types] set to
    document, a document is accepted and a script is rejected. *)
Example documents_only_filter :
  _should_capture_request (L := sample_lib) documents_only document_request
  = Ok true ∧
  _should_capture_request (L := sample_lib) documents_only
    {| request_url := Ok "https://example.test/app.js"%string;
       request_method := Ok "GET"%string; request_headers := Ok ∅;
       request_resource_type := Ok "script"%string;
       request_post_data := Ok None; request_id := 140002 |}
  = Ok false.
Proof. split; reflexivity. Qed.

(** Outside the regular expressions the filter does not answer: the
    exception of [re.search] leaves the filter and the request listener,
    and nothing is recorded. *)
Example ill_formed_pattern_raises :
  _should_capture_request (L := sample_lib) ill_formed_pattern document_request
  = Raise (Exception "missing ), unterminated subpattern at position 0") ∧
  step (L := sample_lib) (RequestEvent 4 4 document_request)
    (set_request_capture_config ill_formed_pattern two_waiting)
  = set_request_capture_config ill_formed_pattern two_waiting.
Proof. split; vm_compute; reflexivity. Qed.

Lemma capture_filter_as_specified_witness :
  _should_capture_request (L := sample_lib) api_documents document_request = Ok true.
Proof.
  exact (proj2 (proj2 (capture_filter_as_specified (L := sample_lib)
                         api_documents document_request))
           "https://example.test/api/items"%string "document"%string
           eq_refl eq_refl
           ltac:(intros p Hp; vm_compute in Hp;
                 repeat (apply elem_of_cons in Hp as [->|Hp]; [reflexivity|]);
                 by apply elem_of_nil in Hp)).
Defined.

Section RequestFacts.
Context {L : PyLib}.

(** C9.  A captured request whose post data is a string that parses as
    JSON, with a content type that mentions json (in any letter case) and
    post-data capture on, is recorded with [postData] the string and
    [postDataJSON] the value [json.loads] gives for it; so, for any
    serializer that [json.loads] inverts on parsed values, serializing the
    stored structure and parsing it again yields what parsing the stored
    [postData] yields. *)
Theorem post_data_json_recorded (json_dumps : json → string)
    (config : capture_config) (now now_except : Z) (request : request)
    (store : list request_entry) (url method resource_type data : string)
    (headers : gmap string string) (parsed : json) :
  request_url request = Ok url →
  request_method request = Ok method →
  request_headers request = Ok headers →
  request_resource_type request = Ok resource_type →
  request_post_data request = Ok (Some data) →
  _should_capture_request config request = Ok true →
  capture_post_data config = true →
  contains "json" (lower (content_type_of headers)) = true →
  json_loads ""%string = None →
  json_loads data = Some parsed →
  (∀ s j, json_loads s = Some j → json_loads (json_dumps j) = Some j) →
  ∃ entry,
    _handle_request config now now_except request store = Ok (store ++ [entry]) ∧
    entry_url entry = url ∧ entry_method entry = method ∧
    entry_timestamp entry = now ∧
    entry_postData entry = Some data ∧
    entry_postDataJSON entry = Some parsed ∧
    (entry_postData entry ≫= json_loads) = entry_postDataJSON entry ∧
    (json_dumps <$> entry_postDataJSON entry) ≫= json_loads
    = entry_postData entry ≫= json_loads.
Proof.
  intros Hurl Hmethod Hheaders Htype Hdata Hcapture Hpost Hjson Hempty Hparsed Hdumps.
  assert (truthy_str data = true) as Htruthy.
  { unfold truthy_str. destruct (String.eqb data "") eqn:Heq; [|done].
    apply String.eqb_eq in Heq as ->. congruence. }
  unfold _handle_request. rewrite Hcapture; simpl.
  rewrite Hurl, Hmethod, Hheaders, Htype; simpl.
  unfold with_post_data. rewrite Hpost, Hdata; simpl.
  rewrite Htruthy, Hjson, Hparsed; simpl.
  eexists; split_and!; try reflexivity; simpl.
  - exact Hparsed.
  - rewrite Hparsed. by apply (Hdumps data).
Qed.

End RequestFacts.

Lemma post_data_json_recorded_witness :
  ∃ entry,
    _handle_request (L := sample_lib) api_documents 10 11 document_request []
    = Ok [entry] ∧
    entry_postData entry = Some "true"%string ∧
    entry_postDataJSON entry = Some true.
Proof.
  destruct (post_data_json_recorded (L := sample_lib) sample_dumps
              api_documents 10 11 document_request []
              "https://example.test/api/items" "POST" "document" "true"
              {[ "content-type"%string := "application/JSON; charset=utf-8"%string ]}
              true eq_refl eq_refl eq_refl eq_refl eq_refl eq_refl eq_refl
              eq_refl eq_refl eq_refl
              ltac:(intros s [] Hs; reflexivity))
    as (entry & Hrun & _ & _ & _ & Hdata & Hjson & _).
  exists entry. split_and!; assumption.
Defined.

(** ** Correlation of responses *)

Section ResponseFacts.
Context {L : PyLib}.

Lemma unmatched_true (url : string) (r : request_entry) :
  unmatched url r = true ↔ entry_url r = url ∧ entry_response r = None.
Proof.
  unfold unmatched. rewrite andb_true_iff, String.eqb_eq, negb_true_iff.
  rewrite bool_decide_eq_false, <-eq_None_not_Some. done.
Qed.

Lemma unmatched_false (url : string) (r : request_entry) :
  unmatched url r = false ↔ (entry_url r = url → is_Some (entry_response r)).
Proof.
  unfold unmatched. rewrite andb_false_iff, String.eqb_neq, negb_false_iff.
  rewrite bool_decide_eq_true. split.
  - intros [Hne|Hsome] Hurl; [done|exact Hsome].
  - intros H. destruct (decide (entry_url r = url)) as [Heq|Hne]; [right|left]; auto.
Qed.

Lemma attach_length url d (store : list request_entry) :
  length (attach url d store) = length store.
Proof.
  induction store as [|r store IH]; simpl; [done|].
  destruct (unmatched url r); simpl; by rewrite ?IH.
Qed.

Lemma attach_none url d (store : list request_entry) :
  existsb (unmatched url) store = false → attach url d store = store.
Proof.
  induction store as [|r store IH]; simpl; [done|].
  intros [Hr Hstore]%orb_false_iff. rewrite Hr. by rewrite IH.
Qed.

(** An entry that already has a response is left as it is. *)
Lemma attach_keeps url d (store : list request_entry) i r d0 :
  store !! i = Some r → entry_response r = Some d0 →
  attach url d store !! i = Some r.
Proof.
  revert i. induction store as [|r' store IH]; intros i Hi Hd; [done|].
  simpl. destruct (unmatched url r') eqn:Hun.
  - destruct i as [|i]; simpl in *; [|done].
    simplify_eq. apply unmatched_true in Hun as [_ Hnone]. congruence.
  - destruct i as [|i]; simpl in *; [done|]. by apply IH.
Qed.

(** The entry that receives the response is the earliest unmatched one. *)
Lemma attach_earliest url d (store : list request_entry) :
  existsb (unmatched url) store = true →
  ∃ i r, store !! i = Some r ∧ unmatched url r = true ∧
         (∀ j r', (j < i)%nat → store !! j = Some r' → unmatched url r' = false) ∧
         attach url d store = <[i := set_response d r]> store.
Proof.
  induction store as [|r store IH]; simpl; [done|].
  destruct (unmatched url r) eqn:Hun; simpl.
  - intros _. exists 0%nat, r. split_and!; [done..| |done].
    intros j r' Hj. lia.
  - intros (i & r0 & Hi & Hr0 & Hearlier & Heq)%IH.
    exists (S i), r0. split_and!; [done..| |by rewrite Heq].
    intros [|j] r' Hj Hr'; simpl in *; [by simplify_eq|].
    apply (Hearlier j); [lia|done].
Qed.

Lemma build_response_data_paired config url response status status_text headers now :
  handles_paired
    (build_response_data config url response status status_text headers now).
Proof.
  unfold build_response_data.
  destruct (capture_response_body config); [|by right].
  destruct (contains "json" (lower (content_type_of headers))
            || endswith url ".json"); [by left|by right].
Qed.

(** What the handler can return. *)
Lemma _handle_response_cases config now response (store store' : list request_entry) :
  _handle_response config now response store = Ok store' →
  store' = store ∨
  ∃ url d, response_url response = Ok url ∧
           existsb (unmatched url) store = true ∧
           handles_paired d ∧
           store' = attach url d store.
Proof.
  unfold _handle_response. destruct store as [|r0 store0] eqn:Hstore.
  { intros [= <-]. by left. }
  rewrite <-Hstore. clear Hstore.
  destruct (response_url response) as [url|e]; simpl; [|done].
  destruct (existsb (unmatched url) store) eqn:Hex; simpl.
  2: { intros [= <-]. by left. }
  destruct (response_status response) as [status|e1]; simpl.
  - destruct (response_status_text response) as [status_text|e2]; simpl.
    + destruct (response_headers response) as [headers|e3]; simpl.
      * intros [= <-]. right. eexists _, _. split_and!; [done..| |done].
        apply build_response_data_paired.
      * intros [= <-]. right. eexists _, _. split_and!; [done..| |done].
        by right.
    + intros [= <-]. right. eexists _, _. split_and!; [done..| |done].
      by right.
  - destruct e1; simpl.
    + intros [= <-]. right. eexists _, _. split_and!; [done..| |done].
      by right.
    + intros [= <-]. by left.
Qed.

(** A readable response for which an unmatched request exists is attached. *)
Lemma _handle_response_ok config now response (store : list request_entry)
    url status status_text headers :
  response_url response = Ok url →
  response_status response = Ok status →
  response_status_text response = Ok status_text →
  response_headers response = Ok headers →
  existsb (unmatched url) store = true →
  _handle_response config now response store
  = Ok (attach url (build_response_data config url response status status_text
                      headers now) store).
Proof.
  intros Hurl Hst Htxt Hhd Hex. unfold _handle_response.
  destruct store as [|r0 store0] eqn:Hstore; [done|].
  rewrite <-Hstore in *. rewrite Hurl; simpl mbind.
  rewrite Hex, Hst, Htxt, Hhd. reflexivity.
Qed.

Lemma build_response_data_fields config url response status status_text headers now :
  let d := build_response_data config url response status status_text headers now in
  resp_status d = status ∧ resp_statusText d = Some status_text ∧
  resp_headers d = Some headers ∧ resp_timestamp d = now.
Proof.
  unfold build_response_data.
  destruct (capture_response_body config); [|done].
  by destruct (contains "json" (lower (content_type_of headers))
               || endswith url ".json").
Qed.

Lemma set_network_requests_id (self : manager) :
  set_network_requests (network_requests self) self = self.
Proof. by destruct self. Qed.

(** The store after the response listener ran. *)
Lemma on_response_store now response (self : manager) :
  match _handle_response (request_capture_config self) now response
          (network_requests self) with
  | Ok store' =>
      on_response now response self = (Ok (), set_network_requests store' self)
  | Raise e => on_response now response self = (Raise e, self)
  end.
Proof.
  unfold on_response, get_self, call, assign, mbind, method_bind.
  by destruct (_handle_response _ _ _ _).
Qed.

(** The data attached by [_handle_response] carries the clock reading of
    the call. *)
Lemma _handle_response_clock config now response (store store' : list request_entry) :
  _handle_response config now response store = Ok store' →
  store' = store ∨
  ∃ url d, response_url response = Ok url ∧
           existsb (unmatched url) store = true ∧
           resp_timestamp d = now ∧
           store' = attach url d store.
Proof.
  unfold _handle_response. destruct store as [|r0 store0] eqn:Hstore.
  { intros [= <-]. by left. }
  rewrite <-Hstore. clear Hstore.
  destruct (response_url response) as [url|e]; simpl; [|done].
  destruct (existsb (unmatched url) store) eqn:Hex; simpl.
  2: { intros [= <-]. by left. }
  destruct (response_status response) as [status|e1]; simpl.
  - destruct (response_status_text response) as [status_text|e2]; simpl.
    + destruct (response_headers response) as [headers|e3]; simpl.
      * intros [= <-]. right. eexists _, _. split_and!; [done..| |done].
        apply build_response_data_fields.
      * intros [= <-]. right. eexists _, (degraded_response_data _ _ now). by split_and!.
    + intros [= <-]. right. eexists _, (degraded_response_data _ _ now). by split_and!.
  - destruct e1; simpl.
    + intros [= <-]. right. eexists _, (degraded_response_data _ _ now). by split_and!.
    + intros [= <-]. by left.
Qed.

(** C3.  Whatever response arrives, the response listener leaves the store
    at its length, leaves every request that already has a response exactly
    as it is, and changes nothing or replaces one request by a copy of it
    that carries a response: the earliest request in the store with the very
    URL of the response and no response yet.  The copy has the stored
    response data under [response] and every other key as the request had
    it.  When the attributes of the response can be read and such a request
    exists, it does receive the response data (status, status text, headers,
    clock reading). *)
Theorem response_attached_fifo (now : Z) (response : response) (self : manager) :
  let store := network_requests self in
  let store' := network_requests (step (ResponseEvent now response) self) in
  length store' = length store ∧
  (∀ i r d, store !! i = Some r → entry_response r = Some d → store' !! i = Some r) ∧
  (store' = store ∨
   ∃ url i r d r',
     response_url response = Ok url ∧
     store !! i = Some r ∧ entry_url r = url ∧ entry_response r = None ∧
     (∀ j r0, (j < i)%nat → store !! j = Some r0 → entry_url r0 = url →
              is_Some (entry_response r0)) ∧
     store' = <[i := r']> store ∧ store' !! i = Some r' ∧
     entry_response r' = Some d ∧ resp_timestamp d = now ∧
     same_request r' r ∧ entry_error r' = entry_error r) ∧
  (∀ url status status_text headers i r,
     response_url response = Ok url →
     response_status response = Ok status →
     response_status_text response = Ok status_text →
     response_headers response = Ok headers →
     store !! i = Some r → entry_url r = url → entry_response r = None →
     (∀ j r0, (j < i)%nat → store !! j = Some r0 → entry_url r0 = url →
              is_Some (entry_response r0)) →
     ∃ d r', store' = <[i := r']> store ∧ store' !! i = Some r' ∧
             entry_response r' = Some d ∧
             same_request r' r ∧ entry_error r' = entry_error r ∧
             resp_status d = status ∧ resp_statusText d = Some status_text ∧
             resp_headers d = Some headers ∧ resp_timestamp d = now).
Proof.
  intros store store'. subst store store'. simpl.
  pose proof (on_response_store now response self) as Hrun.
  destruct (_handle_response (request_capture_config self) now response
              (network_requests self)) as [store'|e] eqn:Hh.
  2: { rewrite Hrun; simpl. split_and!; [done|done|by left|].
       intros url status status_text headers i r Hurl Hst Htxt Hhd Hi Hu Hn Hearlier.
       exfalso. revert Hh. unfold _handle_response.
       destruct (network_requests self) as [|r0 store0] eqn:Hstore; [done|].
       rewrite Hurl, Hst, Htxt, Hhd; simpl.
       by destruct (negb _). }
  rewrite Hrun; simpl.
  pose proof (_handle_response_cases _ _ _ _ _ Hh) as Hcases.
  split_and!.
  - destruct Hcases as [->|(url & d & _ & _ & _ & ->)]; [done|apply attach_length].
  - intros i r d0 Hi Hd0.
    destruct Hcases as [->|(url & d & _ & _ & _ & ->)]; [done|].
    by eapply attach_keeps.
  - destruct (_handle_response_clock _ _ _ _ _ Hh)
      as [->|(url & d & Hurl & Hex & Hnow & ->)]; [by left|right].
    destruct (attach_earliest url d _ Hex) as (i & r & Hi & Hr & Hearlier & Heq).
    apply unmatched_true in Hr as [Hu Hn].
    exists url, i, r, d, (set_response d r). split_and!; try done.
    + intros j r0 Hj Hr0 Hu0.
      by apply (proj1 (unmatched_false url r0) (Hearlier j r0 Hj Hr0)).
    + rewrite Heq. apply list_lookup_insert_eq. by eapply lookup_lt_Some.
  - intros url status status_text headers i r Hurl Hst Htxt Hhd Hi Hu Hn Hearlier.
    assert (existsb (unmatched url) (network_requests self) = true) as Hex.
    { apply existsb_exists. exists r. split.
      - apply list_elem_of_In. by eapply list_elem_of_lookup_2.
      - by apply unmatched_true. }
    rewrite (_handle_response_ok _ _ _ _ url status status_text headers
               Hurl Hst Htxt Hhd Hex) in Hh.
    injection Hh as <-.
    set (d := build_response_data (request_capture_config self) url response
                status status_text headers now).
    destruct (build_response_data_fields (request_capture_config self) url
                response status status_text headers now) as (Hs & Ht & Hhs & Hts).
    destruct (attach_earliest url d _ Hex)
      as (i' & r' & Hi' & Hr' & Hearlier' & ->).
    assert (i' = i) as ->.
    { destruct (Nat.lt_trichotomy i' i) as [Hlt|[->|Hgt]]; [|done|].
      - apply unmatched_true in Hr' as [Hu' Hn'].
        destruct (Hearlier i' r' Hlt Hi' Hu') as [? ?]. congruence.
      - pose proof (Hearlier' i r Hgt Hi) as Hf.
        destruct (proj1 (unmatched_false url r) Hf Hu). congruence. }
    assert (r' = r) as -> by congruence.
    exists d, (set_response d r). split_and!; try done.
    apply list_lookup_insert_eq. by eapply lookup_lt_Some.
Qed.

(** C5.  A response whose URL is the URL of no stored request without a
    response leaves the manager, and so the store, exactly as it was. *)
Theorem unmatched_response_dropped (now : Z) (response : response) (self : manager) :
  (∀ url r, response_url response = Ok url → r ∈ network_requests self →
            entry_url r = url → is_Some (entry_response r)) →
  step (ResponseEvent now response) self = self ∧
  (∀ url, response_url response = Ok url →
          on_response now response self = (Ok (), self)).
Proof.
  intros Hnone.
  assert (∀ url, response_url response = Ok url →
                 _handle_response (request_capture_config self) now response
                   (network_requests self) = Ok (network_requests self)) as Hok.
  { intros url Hurl. unfold _handle_response.
    destruct (network_requests self) as [|r0 store0] eqn:Hstore; [done|].
    rewrite <-Hstore in *. rewrite Hurl; simpl.
    destruct (existsb (unmatched url) (network_requests self)) eqn:Hex; [|done].
    apply existsb_exists in Hex as (r & Hr & Hun).
    apply list_elem_of_In in Hr. apply unmatched_true in Hun as [Hu Hn].
    destruct (Hnone url r Hurl Hr Hu). congruence. }
  pose proof (on_response_store now response self) as Hrun.
  split.
  - simpl. destruct (response_url response) as [url|e] eqn:Hurl.
    + rewrite (Hok url eq_refl) in Hrun. rewrite Hrun; simpl.
      apply set_network_requests_id.
    + destruct (_handle_response _ _ _ _) as [store'|e'] eqn:Hh;
        rewrite Hrun; simpl; [|done].
      revert Hh. unfold _handle_response.
      destruct (network_requests self) as [|r0 store0] eqn:Hstore.
      * intros [= <-]. rewrite <-Hstore. apply set_network_requests_id.
      * by rewrite Hurl.
  - intros url Hurl. rewrite (Hok url Hurl) in Hrun.
    by rewrite Hrun, set_network_requests_id.
Qed.

End ResponseFacts.

(** ** Retrieval of network requests *)

Section SnapshotFacts.
Context {L : PyLib}.

Lemma _process_json_responses_store (store : list request_entry) :
  (_process_json_responses store).1 = map resolved store.
Proof.
  induction store as [|r store IH]; [done|].
  simpl. unfold resolved. destruct (resolve_entry r) as [r' processed].
  destruct (_process_json_responses store) as [rest count].
  simpl in *. by rewrite IH.
Qed.

Lemma get_network_requests_returned last_n (store : list request_entry) :
  (get_network_requests last_n store).1
  = most_recent entry_timestamp last_n (map clean_request (map resolved store)).
Proof.
  unfold get_network_requests. destruct store as [|r store].
  { unfold most_recent, slice_to. simpl.
    by destruct (last_n <? 0); rewrite take_nil. }
  rewrite <-_process_json_responses_store.
  by destruct (_process_json_responses (r :: store)).
Qed.

Lemma get_network_requests_store last_n (store : list request_entry) :
  (get_network_requests last_n store).2 = map resolved store.
Proof.
  unfold get_network_requests. destruct store as [|r store]; [done|].
  rewrite <-_process_json_responses_store.
  by destruct (_process_json_responses (r :: store)).
Qed.

(** The resolution pass touches the [response] key only. *)
Lemma resolved_same_request (r : request_entry) : same_request (resolved r) r.
Proof.
  unfold resolved, resolve_entry.
  destruct (entry_response r) as [d|]; [|done].
  destruct (pending d); [|done].
  destruct (resp__response_obj d) as [obj|]; [|done].
  by destruct (fetch_body obj d).
Qed.

Lemma clean_request_resolved_same (r : request_entry) :
  same_request (clean_request (resolved r)) r.
Proof. apply (resolved_same_request r). Qed.

(** C4.  For a bound [last_n] that is not negative, [get_network_requests]
    returns at most [last_n] entries, in ascending order of timestamp, and
    what it returns is, entry for entry and without repetition, the clean
    copy of requests that are in the store: each returned entry has the URL,
    method, headers, timestamp, resource type, id and post data of a stored
    request. *)
Theorem network_snapshot_bounded (last_n : Z) (store : list request_entry) :
  0 <= last_n →
  let returned := (get_network_requests last_n store).1 in
  (length returned ≤ Z.to_nat last_n)%nat ∧
  StronglySorted by_timestamp returned ∧
  returned ⊆+ map (λ r, clean_request (resolved r)) store ∧
  Forall (λ e, ∃ r, r ∈ store ∧ same_request e r) returned.
Proof.
  intros Hn returned. subst returned.
  rewrite get_network_requests_returned, map_map.
  split_and!.
  - by apply most_recent_length_le.
  - apply (most_recent_ordered entry_timestamp).
  - apply most_recent_submseteq.
  - apply Forall_forall. intros e He.
    assert (e ∈ map (λ r, clean_request (resolved r)) store) as He'.
    { eapply elem_of_submseteq; [exact He|apply most_recent_submseteq]. }
    apply list_elem_of_In, in_map_iff in He' as (r & <- & Hr).
    exists r. split; [by apply list_elem_of_In|].
    apply clean_request_resolved_same.
Qed.

(** *** No handle crosses the snapshot boundary *)

Lemma clean_request_plain (r : request_entry) : plain_request (clean_request r).
Proof.
  split; [done|]. simpl. intros d Hd.
  destruct (entry_response r) as [d0|]; simplify_eq/=. done.
Qed.

Lemma resolved_stripped (r : request_entry) :
  (∀ d, entry_response r = Some d → handles_paired d) → stripped (resolved r).
Proof.
  intros Hpaired d. unfold resolved, resolve_entry.
  destruct (entry_response r) as [d0|] eqn:Hr; [|simpl; by rewrite Hr].
  destruct (Hpaired d0 eq_refl) as [Hp|Hn].
  - rewrite Hp. unfold pending in Hp. apply andb_true_iff in Hp as [_ Hobj].
    apply bool_decide_eq_true in Hobj as [obj Hobj]. rewrite Hobj.
    destruct (fetch_body obj d0) as [d' processed]. simpl. by intros [= <-].
  - assert (pending d0 = false) as ->.
    { unfold pending. destruct Hn as [-> _]. done. }
    simpl. rewrite Hr. by intros [= <-].
Qed.

Lemma resolved_paired (r : request_entry) d :
  (∀ d, entry_response r = Some d → handles_paired d) →
  entry_response (resolved r) = Some d → handles_paired d.
Proof. intros Hp Hd. right. by apply (resolved_stripped r Hp). Qed.

Lemma store_paired_attach url d (store : list request_entry) :
  handles_paired d → store_paired store → store_paired (attach url d store).
Proof.
  intros Hd. induction store as [|r store IH]; intros Hs; [done|].
  simpl. destruct (unmatched url r).
  - intros r' d' [->|Hr']%elem_of_cons Hd'.
    + simpl in Hd'. by simplify_eq.
    + apply (Hs r' d'); [by right|done].
  - intros r' d' [->|Hr']%elem_of_cons Hd'.
    + apply (Hs r d'); [by left|done].
    + apply (IH (λ r0 d0 H0, Hs r0 d0 (proj2 (elem_of_cons _ _ _) (or_intror H0)))
               r' d'); done.
Qed.

Lemma with_post_data_response config request headers (entry entry' : request_entry) :
  with_post_data config request headers entry = Ok entry' →
  entry_response entry' = entry_response entry.
Proof.
  unfold with_post_data.
  destruct (capture_post_data config); [|by intros [= <-]].
  destruct (request_post_data request) as [[data|]|]; simpl;
    [|by intros [= <-]|done].
  destruct (truthy_str data); [|by intros [= <-]].
  destruct (contains _ _); [|by intros [= <-]].
  destruct (json_loads data); by intros [= <-].
Qed.

(** The request listener leaves the store alone or appends one request,
    which has no response. *)
Lemma _handle_request_store config now now_except request
    (store store' : list request_entry) :
  _handle_request config now now_except request store = Ok store' →
  store' = store ∨ ∃ entry, entry_response entry = None ∧ store' = store ++ [entry].
Proof.
  unfold _handle_request.
  destruct (_should_capture_request config request) as [[]|]; simpl;
    [|by intros [= <-]; left|done].
  unfold try_except.
  destruct (_ ≫= _) as [store1|e] eqn:Hbody.
  - intros [= <-]. right. revert Hbody.
    destruct (request_url request); simpl; [|done].
    destruct (request_method request); simpl; [|done].
    destruct (request_headers request) as [headers|]; simpl; [|done].
    destruct (request_resource_type request); simpl; [|done].
    destruct (with_post_data _ _ _ _) as [entry'|] eqn:Hpost; simpl; [|done].
    intros [= <-]. exists entry'. split; [|done].
    by rewrite (with_post_data_response _ _ _ _ _ Hpost).
  - destruct (attr_or (request_url request) _); simpl; [|done].
    destruct (attr_or (request_method request) _); simpl; [|done].
    intros [= <-]. right. eexists. split; [|reflexivity]. done.
Qed.

(** A listener keeps the temporary keys of stored responses paired. *)
Lemma listen_store_paired (ev : page_event) (self : manager) :
  store_paired (network_requests self) →
  store_paired (network_requests (listen ev self).2).
Proof.
  intros Hs. destruct ev as [now message|now now_except request|now response];
    simpl.
  - unfold on_console, mbind, method_bind, get_self, assign, call.
    by destruct (_handle_console_message _ _ _).
  - unfold on_request, mbind, method_bind, get_self, assign, call.
    destruct (_handle_request _ _ _ _ _) as [store'|e] eqn:Hh; simpl; [|done].
    apply _handle_request_store in Hh as [->|(entry & Hnone & ->)]; [done|].
    intros r d [Hr|Hr]%elem_of_app Hd; [by apply (Hs r d)|].
    apply list_elem_of_singleton in Hr as ->. congruence.
  - pose proof (on_response_store now response self) as Hrun.
    destruct (_handle_response _ _ _ _) as [store'|e] eqn:Hh; rewrite Hrun;
      simpl; [|done].
    apply _handle_response_cases in Hh as [->|(url & d & _ & _ & Hd & ->)];
      [done|].
    by apply store_paired_attach.
Qed.

Lemma deliver_store_paired (events : list page_event) (self : manager) :
  store_paired (network_requests self) →
  store_paired (network_requests (deliver events self)).
Proof.
  revert self. induction events as [|ev events IH]; intros self Hs; [done|].
  simpl. apply IH. by apply listen_store_paired.
Qed.

(** The store [open_url] leaves: the store it found, or what the
    navigation recorded into an empty one (nothing, when no page was made). *)
Lemma open_url_store start url headless navigation (self : manager) :
  network_requests (open_url start url headless navigation self).2
  = network_requests self
  ∨ network_requests (open_url start url headless navigation self).2 = []
  ∨ ∃ s0, network_requests s0 = [] ∧
          network_requests (open_url start url headless navigation self).2
          = network_requests (deliver navigation s0).
Proof.
  unfold open_url, initialize, mbind, method_bind, get_self, assign, call,
    mret, method_ret.
  repeat (case_match; simplify_eq/=; auto);
    right; right; eexists; (split; [|reflexivity]); reflexivity.
Qed.

Lemma close_store (self : manager) :
  network_requests (close self).2 = network_requests self
  ∨ network_requests (close self).2 = [].
Proof.
  unfold close, mbind, method_bind, get_self, assign, call, mret, method_ret.
  repeat (case_match; simplify_eq/=; auto).
Qed.

Lemma store_paired_nil : store_paired [].
Proof. intros r d Hr. by apply elem_of_nil in Hr. Qed.

(** Every step keeps the temporary keys of stored responses paired. *)
Lemma step_store_paired (ev : event) (self : manager) :
  store_paired (network_requests self) →
  store_paired (network_requests (step ev self)).
Proof.
  intros Hs. destruct ev as [now message|now now_except request|now response
    |start url headless navigation|last_n|last_n| |updates]; simpl.
  - by apply (listen_store_paired (OnConsole now message)).
  - by apply (listen_store_paired (OnRequest now now_except request)).
  - by apply (listen_store_paired (OnResponse now response)).
  - destruct (open_url_store start url headless navigation self)
      as [->|[->|(s0 & Hs0 & ->)]]; [done|apply store_paired_nil|].
    apply deliver_store_paired. rewrite Hs0. apply store_paired_nil.
  - done.
  - unfold tool_get_network_requests, mbind, method_bind, get_self, assign,
      mret, method_ret.
    pose proof (get_network_requests_store last_n (network_requests self)) as Hst.
    destruct (get_network_requests last_n (network_requests self))
      as [returned store']. simpl in *. subst store'.
    intros r d (r0 & <- & Hr0)%list_elem_of_In%in_map_iff Hd.
    apply list_elem_of_In in Hr0.
    apply (resolved_paired r0 d); [|done]. intros d0. by apply Hs.
  - unfold close_browser, mbind, method_bind, mret, method_ret.
    destruct (close_store self) as [Hc|Hc];
      destruct (close self) as [[[]|e] self']; simpl in *; rewrite Hc;
      [done|done|apply store_paired_nil..].
  - done.
Qed.

Lemma run_store_paired (history : list event) :
  store_paired (network_requests (run history)).
Proof.
  unfold run. generalize (store_paired_nil : store_paired (network_requests initial)).
  generalize initial. induction history as [|ev history IH]; intros self Hs; [done|].
  simpl. apply IH. by apply step_store_paired.
Qed.

(** C7.  Whatever the store, every entry [get_network_requests] returns
    holds allow-listed keys only: no [_response_obj], no [_is_json], no
    error marker, in the request or in its response.  And after any history
    of events and calls, the store the resolution pass leaves has both
    temporary keys removed from every response, whether the body was
    fetched and parsed, fetched as text, or the fetch raised. *)
Theorem snapshot_without_handles :
  (∀ last_n store, Forall plain_request (get_network_requests last_n store).1) ∧
  (∀ history,
     Forall stripped (_process_json_responses (network_requests (run history))).1) ∧
  (∀ history last_n,
     Forall stripped
       (get_network_requests last_n (network_requests (run history))).2).
Proof.
  assert (∀ history, Forall stripped (map resolved (network_requests (run history))))
    as Hstripped.
  { intros history. apply Forall_forall.
    intros r (r0 & <- & Hr0)%list_elem_of_In%in_map_iff.
    apply list_elem_of_In in Hr0. apply resolved_stripped.
    intros d. by apply (run_store_paired history). }
  split_and!.
  - intros last_n store. rewrite get_network_requests_returned.
    apply Forall_forall. intros e He.
    assert (e ∈ map clean_request (map resolved store)) as He'.
    { eapply elem_of_submseteq; [exact He|apply most_recent_submseteq]. }
    apply list_elem_of_In, in_map_iff in He' as (r & <- & _).
    apply clean_request_plain.
  - intros history. rewrite _process_json_responses_store. apply Hstripped.
  - intros history last_n. rewrite get_network_requests_store. apply Hstripped.
Qed.

End SnapshotFacts.

(** ** Session lifecycle *)

Section LifecycleFacts.
Context {L : PyLib}.

(** The manager a call of [close] that returns leaves behind. *)
Lemma close_returns (self self' : manager) :
  close self = (Ok (), self') →
  self' = {| playwright := None; browser := None; page := None;
             console_logs := []; network_requests := [];
             is_initialized := false; headless := headless self;
             request_capture_config := request_capture_config self |}.
Proof.
  unfold close, mbind, method_bind, get_self, assign, call, mret, method_ret.
  destruct self as [pw b p logs store init hl config]; simpl.
  destruct p as [p|]; [destruct (page_close p) as [[]|]; [|done]|];
  (destruct b as [b|]; [destruct (browser_close b) as [[]|]; [|done]|]);
  (destruct pw as [pw|]; [destruct (playwright_stop pw) as [[]|]; [|done]|]);
  simpl; by intros [= <-].
Qed.

(** With nothing open [close] calls nothing and returns. *)
Lemma close_nothing_open (self : manager) :
  page self = None → browser self = None → playwright self = None →
  ∃ self', close self = (Ok (), self').
Proof.
  unfold close, mbind, method_bind, get_self, assign, call, mret, method_ret.
  intros -> -> ->. by eexists.
Qed.

(** C8.  After a call of [close_browser] that returned, a second call made
    straight away returns as well, with the same confirmation, and leaves
    the manager as it is; the console buffer and the request buffer are
    empty, and both retrieval tools return the empty list, for any bound,
    without changing the manager. *)
Theorem close_browser_idempotent (self self' : manager) (confirmation : string) :
  close_browser self = (Ok confirmation, self') →
  close_browser self' = (Ok confirmation, self') ∧
  console_logs self' = [] ∧ network_requests self' = [] ∧
  (∀ last_n, tool_get_network_requests last_n self' = (Ok [], self')) ∧
  (∀ last_n, tool_get_console_logs last_n self' = (Ok [], self')).
Proof.
  unfold close_browser, mbind at 1, method_bind at 1, mret, method_ret.
  destruct (close self) as [[[]|e] self1] eqn:Hclose; [|done].
  intros [= <- <-]. apply close_returns in Hclose. subst self1.
  split_and!; try reflexivity.
Qed.

End LifecycleFacts.

(** ** Negative bounds *)

(** Two equal console entries make one group; the bound -1 leaves none. *)
Lemma negative_bound_console_counterexample :
  (1 < length [entry_at "info" "a" 1; entry_at "info" "a" 2])%nat ∧
  deduplicate (sorted log_timestamp false
                 [entry_at "info" "a" 1; entry_at "info" "a" 2])
  = [ {| g_type := "info"; g_text := "a (重复 2 次)"; g_location := None;
         g_timestamp := 1; g_count := 2; g_timestamps := [1; 2] |} ] ∧
  get_console_logs (-1) [entry_at "info" "a" 1; entry_at "info" "a" 2] = [].
Proof. split_and!; [simpl; lia|reflexivity|reflexivity]. Qed.

Section NegativeBound.
Context {L : PyLib}.

(** C10, amended.  For a negative bound [-k], [get_network_requests] on a
    store of more than [k] requests, and [get_console_logs] on a console
    buffer that yields more than [k] groups, return a list that is not
    empty: everything but [k] entries (or groups), in ascending order of
    timestamp, none of the [k] left out being newer than any that is
    returned. *)
Theorem negative_bound_drops_oldest (k : nat) :
  (0 < k)%nat →
  (∀ store : list request_entry,
     (k < length store)%nat →
     let returned := (get_network_requests (- Z.of_nat k) store).1 in
     returned ≠ [] ∧
     length returned = (length store - k)%nat ∧
     StronglySorted by_timestamp returned ∧
     ∃ dropped,
       map (λ r, clean_request (resolved r)) store ≡ₚ dropped ++ returned ∧
       length dropped = k ∧
       ∀ d e, d ∈ dropped → e ∈ returned →
              entry_timestamp d <= entry_timestamp e) ∧
  (∀ logs : list log_entry,
     let groups := deduplicate (sorted log_timestamp false logs) in
     (k < length groups)%nat →
     let returned := get_console_logs (- Z.of_nat k) logs in
     returned ≠ [] ∧
     length returned = (length groups - k)%nat ∧
     StronglySorted (in_order g_timestamp false) returned ∧
     ∃ dropped,
       groups ≡ₚ dropped ++ returned ∧
       length dropped = k ∧
       ∀ d e, d ∈ dropped → e ∈ returned → g_timestamp d <= g_timestamp e).
Proof.
  intros Hk. split.
  - intros store Hlen returned. subst returned.
    rewrite get_network_requests_returned, map_map.
    set (clean := map (λ r, clean_request (resolved r)) store).
    assert (length clean = length store) as Hclean by apply length_map.
    destruct (most_recent_negative entry_timestamp k clean ltac:(lia))
      as (dropped & Hperm & Hdropped & Hreturned & Holder).
    rewrite Hclean in Hreturned.
    split_and!.
    + intros Hnil. rewrite Hnil in Hreturned. simpl in Hreturned. lia.
    + done.
    + apply (most_recent_ordered entry_timestamp).
    + by exists dropped.
  - intros logs groups Hlen returned. subst returned.
    assert (get_console_logs (- Z.of_nat k) logs
            = most_recent g_timestamp (- Z.of_nat k) groups) as ->.
    { unfold get_console_logs. destruct logs; [|done].
      simpl in Hlen. lia. }
    destruct (most_recent_negative g_timestamp k groups ltac:(lia))
      as (dropped & Hperm & Hdropped & Hreturned & Holder).
    split_and!.
    + intros Hnil. rewrite Hnil in Hreturned. simpl in Hreturned. lia.
    + done.
    + apply (most_recent_ordered g_timestamp).
    + by exists dropped.
Qed.

End NegativeBound.

(** ** Runs *)

Example two_waiting_store :
  network_requests two_waiting = [stored_items 7001 2; stored_items 7002 3].
Proof. vm_compute. reflexivity. Qed.

(** Two responses for one URL go to the two requests in the order of the
    requests. *)
Example fifo_correlation :
  map (λ r : request_entry, resp_status <$> entry_response r)
    (network_requests both_answered)
  = [Some 200; Some 404].
Proof. vm_compute. reflexivity. Qed.

(** A snapshot after the two responses: a body that parses, a body kept as
    text, and no temporary key left in the store. *)
Example snapshot_after_responses :
  map (λ r : request_entry,
         (resp_body <$> entry_response r, resp_bodyText <$> entry_response r))
    (get_network_requests 10 (network_requests both_answered)).1
  = [ (Some (Some true), Some None); (Some None, Some (Some "oops"%string)) ] ∧
  map (λ r : request_entry, resp__response_obj <$> entry_response r)
    (network_requests both_answered)
  = [ Some (Some (items_response 200 (Ok "true"%string)));
      Some (Some (items_response 404 (Ok "oops"%string))) ] ∧
  map (λ r : request_entry, resp__response_obj <$> entry_response r)
    (get_network_requests 10 (network_requests both_answered)).2
  = [ Some None; Some None ].
Proof. vm_compute. split_and!; reflexivity. Qed.

Lemma response_attached_fifo_witness :
  map (λ r, (entry_id r, resp_status <$> entry_response r))
    (network_requests
       (step (ResponseEvent 5 (items_response 200 (Ok "true"%string))) two_waiting))
  = [(Some 7001, Some 200); (Some 7002, None)].
Proof.
  destruct (proj2 (proj2 (proj2
              (response_attached_fifo (L := sample_lib) 5
                 (items_response 200 (Ok "true"%string)) two_waiting)))
              items_url 200 "OK"%string json_headers 0%nat (stored_items 7001 2)
              eq_refl eq_refl eq_refl eq_refl eq_refl eq_refl eq_refl
              ltac:(intros j r0 Hj; lia))
    as (d & r' & Hstore & _ & Hd & Hsame & _ & Hs & _).
  destruct Hsame as (_ & _ & _ & _ & _ & Hid & _).
  rewrite Hstore.
  change (network_requests two_waiting)
    with [stored_items 7001 2; stored_items 7002 3].
  simpl. rewrite Hid, Hd. simpl. rewrite Hs. reflexivity.
Defined.

Lemma unmatched_response_dropped_witness :
  step (ResponseEvent 5 stray_response) two_waiting = two_waiting.
Proof.
  refine (proj1 (unmatched_response_dropped (L := sample_lib) 5 stray_response
                   two_waiting _)).
  intros url r [= <-] Hr Hu. exfalso. revert Hr Hu.
  rewrite two_waiting_store, !elem_of_cons, elem_of_nil.
  intros [->|[->|[]]]; discriminate.
Defined.

Lemma network_snapshot_bounded_witness :
  (length (get_network_requests 1 (network_requests two_waiting)).1 ≤ 1)%nat.
Proof.
  exact (proj1 (network_snapshot_bounded (L := sample_lib) 1
                  (network_requests two_waiting) ltac:(lia))).
Defined.

Lemma close_browser_idempotent_witness :
  network_requests (close_browser two_waiting).2 = [] ∧
  close_browser (close_browser two_waiting).2
  = (Ok "浏览器已成功关闭"%string, (close_browser two_waiting).2).
Proof.
  destruct (close_browser_idempotent (L := sample_lib) two_waiting
              (close_browser two_waiting).2 "浏览器已成功关闭" eq_refl)
    as (Hagain & _ & Hempty & _).
  split; [exact Hempty|exact Hagain].
Defined.

Lemma negative_bound_drops_oldest_witness :
  (get_network_requests (-1) (network_requests two_waiting)).1 ≠ [] ∧
  get_console_logs (-1)
    [entry_at "info" "a" 1; entry_at "warn" "b" 2; entry_at "info" "a" 3] ≠ [].
Proof.
  destruct (negative_bound_drops_oldest (L := sample_lib) 1 ltac:(lia))
    as [Hnet Hcon].
  split.
  - exact (proj1 (Hnet (network_requests two_waiting) ltac:(vm_compute; lia))).
  - exact (proj1 (Hcon [entry_at "info" "a" 1; entry_at "warn" "b" 2;
                        entry_at "info" "a" 3] ltac:(vm_compute; lia))).
Defined.

(** * Further properties *)

(** ** Stability of the sort *)

Section StableSort.
Context {A : Type} (key : A → Z).

(** The elements of key [k], in the order they have in the list. *)
Lemma insert_sorted_filter reverse x (l : list A) k :
  filter (λ y, key y = k) (insert_sorted key reverse x l)
  = filter (λ y, key y = k) (x :: l).
Proof.
  induction l as [|y l IH]; simpl; [done|].
  destruct (precedes key reverse x y) eqn:Hxy; [done|].
  assert (key x ≠ key y) as Hne.
  { intros Heq. unfold precedes in Hxy. rewrite Heq in Hxy.
    destruct reverse; apply Z.leb_gt in Hxy; lia. }
  rewrite (filter_cons _ y), IH, !(filter_cons _ x), (filter_cons _ y).
  repeat case_decide; congruence.
Qed.

(** [sorted] keeps the elements of equal key in their order. *)
Lemma sorted_filter reverse (l : list A) k :
  filter (λ y, key y = k) (sorted key reverse l) = filter (λ y, key y = k) l.
Proof.
  induction l as [|x l IH]; simpl; [done|].
  rewrite insert_sorted_filter, !(filter_cons _ x), IH. done.
Qed.

(** An ordered list is determined by its elements of each key. *)
Lemma ordered_unique reverse (l1 l2 : list A) :
  StronglySorted (in_order key reverse) l1 →
  StronglySorted (in_order key reverse) l2 →
  (∀ k, filter (λ y, key y = k) l1 = filter (λ y, key y = k) l2) →
  l1 = l2.
Proof.
  revert l2. induction l1 as [|x l1 IH]; intros l2 Hs1 Hs2 Hf.
  - destruct l2 as [|y l2]; [done|].
    specialize (Hf (key y)). rewrite filter_cons_True in Hf by done. done.
  - destruct l2 as [|y l2].
    { specialize (Hf (key x)). rewrite filter_cons_True in Hf by done. done. }
    apply StronglySorted_cons in Hs1 as [Hx Hs1].
    apply StronglySorted_cons in Hs2 as [Hy Hs2].
    rewrite Forall_forall in Hx, Hy.
    assert (key x = key y) as Hkey.
    { destruct (decide (key x = key y)) as [|Hne]; [done|exfalso].
      assert (y ∈ l1) as Hy1.
      { assert (y ∈ filter (λ z, key z = key y) (x :: l1)) as Hin.
        { rewrite Hf, filter_cons_True by done. by left. }
        apply list_elem_of_filter in Hin as [_ [->|Hin]%elem_of_cons]; done. }
      assert (x ∈ l2) as Hx2.
      { assert (x ∈ filter (λ z, key z = key x) (y :: l2)) as Hin.
        { rewrite <-Hf, filter_cons_True by done. by left. }
        apply list_elem_of_filter in Hin as [_ [->|Hin]%elem_of_cons]; done. }
      apply Hx in Hy1. apply Hy in Hx2. unfold in_order in *.
      destruct reverse; lia. }
    assert (x = y) as <-.
    { specialize (Hf (key x)).
      rewrite filter_cons_True, (filter_cons_True _ y) in Hf by done.
      by injection Hf. }
    f_equal. apply IH; [done..|]. intros k. specialize (Hf k).
    rewrite !(filter_cons _ x) in Hf. case_decide; [by injection Hf|done].
Qed.

(** Sorting a sorted list again, in either direction first, changes
    nothing more. *)
Lemma sorted_sorted reverse reverse' (l : list A) :
  sorted key reverse (sorted key reverse' l) = sorted key reverse l.
Proof.
  apply (ordered_unique reverse); [apply sorted_ordered..|].
  intros k. by rewrite !sorted_filter.
Qed.

Lemma sorted_id reverse (l : list A) :
  StronglySorted (in_order key reverse) l → sorted key reverse l = l.
Proof.
  intros Hl. apply (ordered_unique reverse); [apply sorted_ordered|done|].
  intros k. apply sorted_filter.
Qed.

Lemma slice_to_all n (l : list A) :
  Z.of_nat (length l) <= n → slice_to n l = l.
Proof.
  intros Hn. unfold slice_to.
  assert ((n <? 0) = false) as -> by (apply Z.ltb_ge; lia).
  apply take_ge. lia.
Qed.

(** A bound that covers the list keeps all of it. *)
Lemma most_recent_all n (l : list A) :
  Z.of_nat (length l) <= n → most_recent key n l = sorted key false l.
Proof.
  intros Hn. unfold most_recent.
  rewrite slice_to_all by (by rewrite sorted_length).
  apply sorted_sorted.
Qed.

(** For a bound that is not negative, what is left out is never newer than
    what is kept. *)
Lemma most_recent_priority n (l : list A) :
  0 <= n →
  ∃ dropped,
    l ≡ₚ dropped ++ most_recent key n l ∧
    length (most_recent key n l) = Nat.min (Z.to_nat n) (length l) ∧
    ∀ d e, d ∈ dropped → e ∈ most_recent key n l → key d <= key e.
Proof.
  intros Hn. unfold most_recent.
  destruct (slice_to_take n (sorted key true l)) as (m & -> & Hm & _).
  rewrite (Hm Hn). clear Hm.
  exists (drop (Z.to_nat n) (sorted key true l)). split_and!.
  - rewrite (sorted_perm key false (take _ _)), (comm (++)), take_drop.
    symmetry. apply sorted_perm.
  - by rewrite sorted_length, length_take, sorted_length.
  - intros d e Hd He. rewrite (sorted_perm key false (take _ _)) in He.
    pose proof (sorted_ordered key true l) as Hs.
    rewrite <-(take_drop (Z.to_nat n) (sorted key true l)) in Hs.
    by apply (StronglySorted_app_1_elem_of _ _ _ e d) in Hs.
Qed.

End StableSort.

(** ** Grouping of console entries *)

(** The two things one iteration of the grouping loop can do. *)
Lemma dedup_step_cases (acc : list log_group) (log : log_entry) :
  dedup_step acc log = acc ++ [new_group log] ∨
  ∃ acc' g, acc = acc' ++ [g] ∧ dedup_step acc log = acc' ++ [absorb g log].
Proof.
  unfold dedup_step. destruct (last acc) as [g|] eqn:Hlast; [|by left].
  destruct (negb _ || negb _); [by left|right].
  apply last_Some in Hlast as [acc' ->].
  exists acc', g. by rewrite removelast_last.
Qed.

Lemma total_count_app (l1 l2 : list log_group) :
  total_count (l1 ++ l2) = total_count l1 + total_count l2.
Proof.
  unfold total_count. induction l1 as [|g l1 IH]; simpl; [done|]. lia.
Qed.

Lemma new_group_well_counted log : well_counted (new_group log).
Proof. unfold well_counted, new_group; simpl. split_and!; done. Qed.

Lemma absorb_well_counted g log : well_counted g → well_counted (absorb g log).
Proof.
  intros (Hone & Hcount & Hhead). unfold well_counted, absorb; simpl.
  split_and!; [lia| |].
  - rewrite length_app. simpl. lia.
  - destruct (g_timestamps g); [done|]. exact Hhead.
Qed.

Lemma dedup_loop_invariant (logs : list log_entry) (acc : list log_group) :
  Forall well_counted acc →
  Forall well_counted (fold_left dedup_step logs acc) ∧
  total_count (fold_left dedup_step logs acc)
  = total_count acc + Z.of_nat (length logs) ∧
  concat (map g_timestamps (fold_left dedup_step logs acc))
  = concat (map g_timestamps acc) ++ map log_timestamp logs.
Proof.
  revert acc. induction logs as [|log logs IH]; intros acc Hacc.
  { simpl. split_and!; [done|lia|by rewrite app_nil_r]. }
  cbn [fold_left].
  destruct (dedup_step_cases acc log) as [->|(acc' & g & -> & ->)].
  - destruct (IH (acc ++ [new_group log])) as (H1 & H2 & H3).
    { apply Forall_app. split; [done|].
      apply Forall_singleton, new_group_well_counted. }
    split_and!; [done| |].
    + rewrite H2, total_count_app. unfold total_count; simpl.
      rewrite Nat2Z.inj_succ. lia.
    + rewrite H3, map_app, concat_app. simpl. by rewrite <-app_assoc.
  - apply Forall_app in Hacc as [Hacc' Hg].
    rewrite Forall_singleton in Hg.
    destruct (IH (acc' ++ [absorb g log])) as (H1 & H2 & H3).
    { apply Forall_app. split; [done|].
      apply Forall_singleton. by apply absorb_well_counted. }
    split_and!; [done| |].
    + rewrite H2, !total_count_app. unfold total_count; simpl.
      rewrite Nat2Z.inj_succ. lia.
    + rewrite H3, !map_app, !concat_app. simpl.
      by rewrite !app_nil_r, <-!app_assoc.
Qed.

Lemma get_console_logs_most_recent last_n (logs : list log_entry) :
  get_console_logs last_n logs
  = most_recent g_timestamp last_n
      (deduplicate (sorted log_timestamp false logs)).
Proof.
  unfold get_console_logs. destruct logs as [|log logs]; [|done].
  unfold most_recent, slice_to. simpl.
  by destruct (last_n <? 0); rewrite take_nil.
Qed.

(** The groups come out of the loop in ascending order of timestamp. *)
Lemma deduplicate_ordered (logs : list log_entry) :
  StronglySorted (in_order g_timestamp false)
    (deduplicate (sorted log_timestamp false logs)).
Proof.
  unfold deduplicate.
  destruct (dedup_loop_invariant (sorted log_timestamp false logs) [])
    as (Hwell & _ & Hconcat); [done|].
  simpl in Hconcat.
  pose proof (sorted_ordered log_timestamp false logs) as Hsorted.
  apply (StronglySorted_fmap log_timestamp (in_order log_timestamp false) Z.le)
    in Hsorted.
  2: { intros a b Hab. exact Hab. }
  change (log_timestamp <$> sorted log_timestamp false logs)
    with (map log_timestamp (sorted log_timestamp false logs)) in Hsorted.
  rewrite <-Hconcat in Hsorted. clear Hconcat.
  induction (fold_left dedup_step (sorted log_timestamp false logs) [])
    as [|g groups IH]; [constructor|].
  simpl in Hsorted. apply StronglySorted_app in Hsorted as (Hcross & _ & Hrest).
  apply Forall_cons in Hwell as [(_ & _ & Hhead) Hwell].
  constructor; [by apply IH|].
  apply Forall_forall. intros g' Hg'. unfold in_order.
  apply Hcross.
  - destruct (g_timestamps g) as [|t ts]; simplify_eq/=. by left.
  - apply list_elem_of_In, in_concat. exists (g_timestamps g').
    split; [by apply in_map, list_elem_of_In|].
    rewrite Forall_forall in Hwell. destruct (Hwell g' Hg') as (_ & _ & Hhead').
    destruct (g_timestamps g') as [|t ts]; simplify_eq/=. by left.
Qed.

(** X1.  Grouping loses and invents no entry: every group has a count of
    at least one, equal to the number of timestamps it collected, the
    counts add up to the number of console entries, and the timestamps of
    the groups, read group after group, are the timestamps of the entries
    in ascending order; the timestamp of a group is that of its first
    entry. *)
Theorem grouping_conserves_entries (logs : list log_entry) :
  let groups := deduplicate (sorted log_timestamp false logs) in
  Forall (λ g, 1 <= g_count g ∧
               g_count g = Z.of_nat (length (g_timestamps g)) ∧
               head (g_timestamps g) = Some (g_timestamp g)) groups ∧
  total_count groups = Z.of_nat (length logs) ∧
  concat (map g_timestamps groups)
  = map log_timestamp (sorted log_timestamp false logs).
Proof.
  intros groups. subst groups. unfold deduplicate.
  destruct (dedup_loop_invariant (sorted log_timestamp false logs) [])
    as (Hwell & Hcount & Hconcat); [done|].
  split_and!; [done| |done].
  rewrite Hcount, sorted_length. unfold total_count; simpl. lia.
Qed.

Lemma no_repeat_loop (logs : list log_entry) (acc : list log_group) prev :
  no_repeat (prev :: logs) →
  fold_left dedup_step logs (acc ++ [new_group prev])
  = acc ++ new_group prev :: map new_group logs.
Proof.
  revert acc prev. induction logs as [|log logs IH]; intros acc prev Hno.
  { done. }
  destruct Hno as [Hne Hno]. cbn [fold_left map].
  assert (dedup_step (acc ++ [new_group prev]) log
          = (acc ++ [new_group prev]) ++ [new_group log]) as ->.
  { unfold dedup_step. rewrite last_snoc. simpl.
    destruct (String.eqb (log_type log) (log_type prev)) eqn:Htype; [|done].
    destruct (String.eqb (log_text log) (log_text prev)) eqn:Htext; [|done].
    apply String.eqb_eq in Htype, Htext. destruct Hne. by split. }
  rewrite (IH _ log Hno). by rewrite <-app_assoc.
Qed.

(** X2.  Console entries none of which repeats the type and text of the one
    before it (in timestamp order) are not touched by the grouping: each
    becomes a group of count 1 with its own text, type, location and
    timestamp. *)
Theorem grouping_without_repeats (logs : list log_entry) :
  no_repeat (sorted log_timestamp false logs) →
  deduplicate (sorted log_timestamp false logs)
  = map new_group (sorted log_timestamp false logs).
Proof.
  unfold deduplicate.
  destruct (sorted log_timestamp false logs) as [|log sorted_logs]; [done|].
  intros Hno. cbn [fold_left map].
  change (dedup_step [] log) with ([] ++ [new_group log]).
  by rewrite (no_repeat_loop sorted_logs [] log Hno).
Qed.

Lemma grouping_without_repeats_witness :
  get_console_logs 10 [entry_at "log" "tick" 2; entry_at "log" "tock" 1;
                       entry_at "warn" "tick" 3]
  = [ {| g_type := "log"; g_text := "tock"; g_location := None;
         g_timestamp := 1; g_count := 1; g_timestamps := [1] |};
      {| g_type := "log"; g_text := "tick"; g_location := None;
         g_timestamp := 2; g_count := 1; g_timestamps := [2] |};
      {| g_type := "warn"; g_text := "tick"; g_location := None;
         g_timestamp := 3; g_count := 1; g_timestamps := [3] |} ] ∧
  deduplicate (sorted log_timestamp false
                 [entry_at "log" "tick" 2; entry_at "log" "tock" 1;
                  entry_at "warn" "tick" 3])
  = map new_group (sorted log_timestamp false
                     [entry_at "log" "tick" 2; entry_at "log" "tock" 1;
                      entry_at "warn" "tick" 3]).
Proof.
  split; [reflexivity|].
  apply (grouping_without_repeats
           [entry_at "log" "tick" 2; entry_at "log" "tock" 1;
            entry_at "warn" "tick" 3]).
  simpl. unfold same_message. simpl.
  split_and!; [intros [_ [=]]|intros [[=] _]|exact I].
Defined.

(** X3.  For a bound that is not negative [get_console_logs] returns at
    most that many groups, in ascending order of timestamp, all of them
    groups of the buffer, and the groups left out are never newer than a
    group returned; a bound of zero returns nothing. *)
Theorem console_snapshot_bounded (last_n : Z) (logs : list log_entry) :
  0 <= last_n →
  let groups := deduplicate (sorted log_timestamp false logs) in
  let returned := get_console_logs last_n logs in
  length returned = Nat.min (Z.to_nat last_n) (length groups) ∧
  StronglySorted groups_by_timestamp returned ∧
  returned ⊆+ groups ∧
  (∃ dropped, groups ≡ₚ dropped ++ returned ∧
              ∀ d e, d ∈ dropped → e ∈ returned →
                     g_timestamp d <= g_timestamp e) ∧
  (last_n = 0 → returned = []).
Proof.
  intros Hn groups returned. subst groups returned.
  rewrite get_console_logs_most_recent.
  destruct (most_recent_priority g_timestamp last_n
              (deduplicate (sorted log_timestamp false logs)) Hn)
    as (dropped & Hperm & Hlen & Hold).
  split_and!.
  - done.
  - apply (most_recent_ordered g_timestamp).
  - apply most_recent_submseteq.
  - by exists dropped.
  - intros ->. apply length_zero_iff_nil. by rewrite Hlen.
Qed.

Lemma console_snapshot_bounded_witness :
  length (get_console_logs 1 [entry_at "log" "tick" 2; entry_at "log" "tock" 1])
  = 1%nat.
Proof.
  exact (proj1 (console_snapshot_bounded 1
                  [entry_at "log" "tick" 2; entry_at "log" "tock" 1]
                  ltac:(lia))).
Defined.

(** X4.  With a bound of at least the number of groups, [get_console_logs]
    returns exactly the groups the grouping loop built, in the order it
    built them. *)
Theorem console_snapshot_complete (last_n : Z) (logs : list log_entry) :
  Z.of_nat (length (deduplicate (sorted log_timestamp false logs))) <= last_n →
  get_console_logs last_n logs = deduplicate (sorted log_timestamp false logs).
Proof.
  intros Hn. rewrite get_console_logs_most_recent, most_recent_all by done.
  apply sorted_id, deduplicate_ordered.
Qed.

Lemma console_snapshot_complete_witness :
  get_console_logs 2 [entry_at "log" "tick" 2; entry_at "log" "tock" 1]
  = deduplicate (sorted log_timestamp false
                   [entry_at "log" "tick" 2; entry_at "log" "tock" 1]).
Proof.
  apply (console_snapshot_complete 2
           [entry_at "log" "tick" 2; entry_at "log" "tock" 1]).
  vm_compute. discriminate.
Defined.


(** ** The request listener *)

Section RequestListener.
Context {L : PyLib}.

Lemma truthy_str_true (s : string) : truthy_str s = true ↔ s ≠ ""%string.
Proof. unfold truthy_str. rewrite negb_true_iff. apply String.eqb_neq. Qed.

(** X5.  A request the filter accepts and whose attributes can be read is
    appended to the store as one entry: URL, method, headers, resource type
    and id of the request, the clock reading, no response, no error.  The
    entry has [postData] exactly when post-data capture is on and the
    request has a body that is not empty, and then it is that body; it has
    [postDataJSON] exactly when, besides, the content type mentions json
    and the body parses, and then it is the parsed body (a body that does
    not parse is kept as [postData] alone). *)
Theorem accepted_request_recorded (config : capture_config) (now now_except : Z)
    (request : request) (store : list request_entry)
    (url method resource_type : string) (headers : gmap string string)
    (post_data : option string) :
  request_url request = Ok url →
  request_method request = Ok method →
  request_headers request = Ok headers →
  request_resource_type request = Ok resource_type →
  (capture_post_data config = true → request_post_data request = Ok post_data) →
  _should_capture_request config request = Ok true →
  ∃ entry,
    _handle_request config now now_except request store = Ok (store ++ [entry]) ∧
    entry_url entry = url ∧ entry_method entry = method ∧
    entry_headers entry = Some headers ∧ entry_timestamp entry = now ∧
    entry_resourceType entry = Some resource_type ∧
    entry_id entry = Some (request_id request) ∧
    entry_response entry = None ∧ entry_error entry = None ∧
    (∀ data, entry_postData entry = Some data ↔
             capture_post_data config = true ∧ post_data = Some data ∧
             data ≠ ""%string) ∧
    (∀ parsed, entry_postDataJSON entry = Some parsed ↔
               ∃ data, entry_postData entry = Some data ∧
                       contains "json" (lower (content_type_of headers)) = true ∧
                       json_loads data = Some parsed).
Proof.
  intros Hurl Hmethod Hheaders Htype Hdata Hcapture.
  unfold _handle_request. rewrite Hcapture; simpl.
  rewrite Hurl, Hmethod, Hheaders, Htype; simpl.
  unfold with_post_data.
  destruct (capture_post_data config) eqn:Hcap.
  2: { simpl. eexists; split_and!; try reflexivity; simpl.
       - intros data. split; [done|]. by intros ([=] & _).
       - intros parsed. split; [done|]. by intros (data & [=] & _). }
  rewrite (Hdata eq_refl); simpl.
  destruct post_data as [data|]; simpl.
  2: { eexists; split_and!; try reflexivity; simpl.
       - intros data. split; [done|]. by intros (_ & [=] & _).
       - intros parsed. split; [done|]. by intros (data & [=] & _). }
  destruct (truthy_str data) eqn:Htruthy; simpl.
  2: { eexists; split_and!; try reflexivity; simpl.
       - intros data'. split; [done|]. intros (_ & [= <-] & Hne).
         apply truthy_str_true in Hne. congruence.
       - intros parsed. split; [done|]. by intros (data' & [=] & _). }
  apply truthy_str_true in Htruthy.
  destruct (contains "json" (lower (content_type_of headers))) eqn:Hjson; simpl.
  2: { eexists; split_and!; try reflexivity; simpl.
       - intros data'. split; [by intros [= <-]|]. by intros (_ & [= <-] & _).
       - intros parsed. split; [done|]. by intros (data' & _ & [=] & _). }
  destruct (json_loads data) as [parsed|] eqn:Hparsed; simpl.
  - eexists; split_and!; try reflexivity; simpl.
    + intros data'. split; [by intros [= <-]|]. by intros (_ & [= <-] & _).
    + intros parsed'. split.
      * intros [= <-]. by exists data.
      * intros (data' & [= <-] & _ & Hp). congruence.
  - eexists; split_and!; try reflexivity; simpl.
    + intros data'. split; [by intros [= <-]|]. by intros (_ & [= <-] & _).
    + intros parsed'. split; [done|].
      intros (data' & [= <-] & _ & Hp). congruence.
Qed.

(** An accepted request had its URL and resource type read, and capture is
    on. *)
Lemma accepted_readable config request :
  _should_capture_request config request = Ok true →
  enabled config = true ∧
  ∃ url resource_type, request_url request = Ok url ∧
                       request_resource_type request = Ok resource_type.
Proof.
  unfold _should_capture_request.
  destruct (enabled config); simpl; [|done].
  destruct (request_url request) as [url|]; simpl; [|done].
  destruct (request_resource_type request) as [resource_type|]; simpl; [|done].
  intros _. split; [done|]. by exists url, resource_type.
Qed.

(** X6.  The request listener raises in two cases only: the filter raises
    (a pattern that is not a regular expression is searched, or the URL or
    the resource type cannot be read), or the request is accepted and
    reading its method raises something other than [AttributeError], which
    the [except] arm does not survive.  It raises that same exception. *)
Theorem request_listener_raises (config : capture_config) (now now_except : Z)
    (request : request) (store : list request_entry) (e : exn) :
  _handle_request config now now_except request store = Raise e ↔
  _should_capture_request config request = Raise e ∨
  (_should_capture_request config request = Ok true ∧
   ∃ msg, e = Exception msg ∧ request_method request = Raise e).
Proof.
  unfold _handle_request.
  destruct (_should_capture_request config request) as [[]|e0] eqn:Hcapture;
    simpl.
  - apply accepted_readable in Hcapture as (_ & url & resource_type & Hurl & Htype).
    rewrite Hurl, Htype; simpl.
    destruct (request_method request) as [method|e1] eqn:Hmethod; simpl.
    + unfold try_except.
      destruct (request_headers request) as [headers|e2]; simpl.
      * destruct (with_post_data _ _ _ _); simpl;
          split; try done; intros [[=]|(_ & msg & _ & [=])].
      * split; [done|]. intros [[=]|(_ & msg & _ & [=])].
    + destruct e1 as [msg|msg]; simpl.
      * split; [done|]. intros [[=]|(_ & msg' & -> & [=])].
      * split.
        -- intros [= <-]. right. split; [done|]. by exists msg.
        -- intros [[=]|(_ & msg' & -> & [= ->])]. done.
  - split; [done|]. intros [[=]|([=] & _)].
  - split.
    + intros [= ->]. by left.
    + intros [[= ->]|([=] & _)]. done.
Qed.

(** X7.  When an accepted request fails while its entry is being built
    (its headers or, with post-data capture on, its post data cannot be
    read), the listener appends a degraded entry instead: the URL, the
    method, the message of the exception under [error] and the clock
    reading of the [except] arm, nothing else.  When it is the method that
    is missing ([AttributeError]), the method recorded is ERROR. *)
Theorem degraded_request_recorded (config : capture_config) (now now_except : Z)
    (request : request) (store : list request_entry) (url : string) (e : exn) :
  _should_capture_request config request = Ok true →
  request_url request = Ok url →
  (∀ method,
     request_method request = Ok method →
     request_headers request = Raise e ∨
     (is_ok (request_headers request) = true ∧ capture_post_data config = true ∧
      request_post_data request = Raise e) →
     _handle_request config now now_except request store
     = Ok (store ++ [ {| entry_url := url; entry_method := method;
                         entry_headers := None; entry_timestamp := now_except;
                         entry_resourceType := None; entry_id := None;
                         entry_postData := None; entry_postDataJSON := None;
                         entry_response := None;
                         entry_error := Some (str_exn e) |} ])) ∧
  (∀ msg,
     request_method request = Raise (AttributeError msg) →
     _handle_request config now now_except request store
     = Ok (store ++ [ {| entry_url := url; entry_method := "ERROR";
                         entry_headers := None; entry_timestamp := now_except;
                         entry_resourceType := None; entry_id := None;
                         entry_postData := None; entry_postDataJSON := None;
                         entry_response := None;
                         entry_error := Some msg |} ])).
Proof.
  intros Hcapture Hurl.
  destruct (accepted_readable _ _ Hcapture) as (_ & url' & resource_type & Hurl' & Htype).
  unfold _handle_request. rewrite Hcapture, Hurl, Htype; simpl.
  split.
  - intros method Hmethod Hfail. rewrite Hmethod; simpl.
    destruct Hfail as [Hheaders|(Hheaders & Hcap & Hdata)].
    + by rewrite Hheaders.
    + destruct (request_headers request) as [headers|]; [|done]. simpl.
      unfold with_post_data. by rewrite Hcap, Hdata.
  - intros msg Hmethod. by rewrite Hmethod.
Qed.

End RequestListener.

(** ** The capture filter beyond well-formed patterns *)

Section FilterOrder.
Context {L : PyLib}.

(** X8.  The type filters decide before any pattern is searched: a request
    whose resource type is outside a non-empty [include_types], or inside
    [exclude_types], is rejected whatever the patterns are, regular
    expressions or not. *)
Theorem type_filters_come_first (config : capture_config) (request : request)
    (url resource_type : string) :
  enabled config = true →
  request_url request = Ok url →
  request_resource_type request = Ok resource_type →
  (include_types config ≠ [] ∧ resource_type ∉ include_types config) ∨
  resource_type ∈ exclude_types config →
  _should_capture_request config request = Ok false.
Proof.
  intros Hen Hurl Htype Hrej. unfold _should_capture_request.
  rewrite Hen, Hurl, Htype; simpl. rewrite !in_types_elem_of.
  destruct Hrej as [[Hne Hnot]|Hex].
  - rewrite (bool_decide_eq_false_2 _ Hne), (bool_decide_eq_false_2 _ Hnot).
    done.
  - rewrite (bool_decide_eq_true_2 _ Hex).
    by destruct (negb _ && negb _).
Qed.

Lemma matches_include_first (before after : list string) (p url : string) :
  (∀ q, q ∈ before → re_search q url = Ok false) →
  re_search p url = Ok true →
  matches_include (before ++ p :: after) url = Ok true.
Proof.
  intros Hbefore Hp. induction before as [|q before IH]; simpl.
  - by rewrite Hp.
  - rewrite (Hbefore q) by (by left). simpl.
    apply IH. intros q' Hq'. apply Hbefore. by right.
Qed.

Lemma passes_exclude_first (before after : list string) (p url : string) :
  (∀ q, q ∈ before → re_search q url = Ok false) →
  re_search p url = Ok true →
  passes_exclude (before ++ p :: after) url = Ok false.
Proof.
  intros Hbefore Hp. induction before as [|q before IH]; simpl.
  - by rewrite Hp.
  - rewrite (Hbefore q) by (by left). simpl.
    apply IH. intros q' Hq'. apply Hbefore. by right.
Qed.

Lemma passes_exclude_none (patterns : list string) (url : string) :
  (∀ q, q ∈ patterns → re_search q url = Ok false) →
  passes_exclude patterns url = Ok true.
Proof.
  intros Hnone. induction patterns as [|q patterns IH]; simpl; [done|].
  rewrite (Hnone q) by (by left). simpl.
  apply IH. intros q' Hq'. apply Hnone. by right.
Qed.

(** X9.  Both pattern loops stop at the first pattern that matches: for a
    request that passes the type filters, the patterns that follow the
    first matching include pattern, or the first matching exclude pattern,
    are never searched, so they need not even be regular expressions.  A
    URL that matches an exclude pattern is rejected although it matches an
    include pattern. *)
Theorem pattern_loops_stop_at_first_match (config : capture_config)
    (request : request) (url resource_type : string)
    (before after : list string) (p : string) :
  enabled config = true →
  request_url request = Ok url →
  request_resource_type request = Ok resource_type →
  (include_types config = [] ∨ resource_type ∈ include_types config) →
  resource_type ∉ exclude_types config →
  (∀ q, q ∈ before → re_search q url = Ok false) →
  re_search p url = Ok true →
  (include_patterns config = before ++ p :: after →
   (∀ q, q ∈ exclude_patterns config → re_search q url = Ok false) →
   _should_capture_request config request = Ok true) ∧
  (exclude_patterns config = before ++ p :: after →
   (include_patterns config = [] ∨
    ∃ before' p' after', include_patterns config = before' ++ p' :: after' ∧
       (∀ q, q ∈ before' → re_search q url = Ok false) ∧
       re_search p' url = Ok true) →
   _should_capture_request config request = Ok false).
Proof.
  intros Hen Hurl Htype Hinc Hexc Hbefore Hp.
  assert (negb (bool_decide (include_types config = []))
          && negb (in_types resource_type (include_types config)) = false)
    as Htypes.
  { rewrite in_types_elem_of. destruct Hinc as [Hnil|Hin].
    - by rewrite (bool_decide_eq_true_2 _ Hnil).
    - rewrite (bool_decide_eq_true_2 _ Hin). apply andb_false_r. }
  assert (in_types resource_type (exclude_types config) = false) as Hexcl.
  { rewrite in_types_elem_of. by apply bool_decide_eq_false_2. }
  unfold _should_capture_request.
  rewrite Hen, Hurl, Htype; simpl. rewrite Htypes, Hexcl.
  split.
  - intros Hpatterns Hnone. rewrite Hpatterns.
    rewrite bool_decide_eq_false_2 by (by destruct before).
    simpl. rewrite (matches_include_first _ _ _ _ Hbefore Hp). simpl.
    by apply passes_exclude_none.
  - intros Hpatterns Hincluded. rewrite Hpatterns.
    rewrite (passes_exclude_first _ _ _ _ Hbefore Hp).
    destruct Hincluded as [->|(before' & p' & after' & -> & Hb' & Hp')].
    + done.
    + rewrite bool_decide_eq_false_2 by (by destruct before').
      simpl. by rewrite (matches_include_first _ _ _ _ Hb' Hp').
Qed.

End FilterOrder.

(** ** The response listener *)

Section ResponseListener.
Context {L : PyLib}.

(** X10.  The response listener raises in one case only: the store is not
    empty and the URL of the response cannot be read.  Any failure while
    the response data is built is absorbed. *)
Theorem response_listener_raises (config : capture_config) (now : Z)
    (response : response) (store : list request_entry) (e : exn) :
  _handle_response config now response store = Raise e ↔
  store ≠ [] ∧ response_url response = Raise e.
Proof.
  unfold _handle_response.
  destruct store as [|r0 store0] eqn:Hstore.
  { split; [done|]. by intros [? _]. }
  rewrite <-Hstore.
  destruct (response_url response) as [url|e0]; simpl.
  - split; [|by intros [_ [=]]].
    destruct (negb _); [done|]. unfold try_except.
    destruct (response_status response) as [status|[msg|msg]]; simpl; [|done..].
    destruct (response_status_text response); simpl; [|done].
    by destruct (response_headers response).
  - split.
    + intros [= ->]. split; [by rewrite Hstore|done].
    + by intros [_ [= ->]].
Qed.

(** X11.  A response that fails while its data is built still answers the
    earliest waiting request, with a degraded record: the status, the
    message of the exception under [error], and the clock reading.  When it
    is the status that is missing ([AttributeError]) the status recorded is
    0; when reading the status raises anything else, the response is
    dropped and the store is left as it was. *)
Theorem degraded_response_attached (config : capture_config) (now : Z)
    (response : response) (store : list request_entry) (url : string) :
  response_url response = Ok url →
  existsb (unmatched url) store = true →
  (∀ status e,
     response_status response = Ok status →
     response_status_text response = Raise e ∨
     (is_ok (response_status_text response) = true ∧
      response_headers response = Raise e) →
     _handle_response config now response store
     = Ok (attach url
             {| resp_status := status; resp_statusText := None;
                resp_headers := None; resp_timestamp := now;
                resp__is_json := None; resp__response_obj := None;
                resp_body := None; resp_bodyText := None;
                resp_body_error := None;
                resp_error := Some (str_exn e) |} store)) ∧
  (∀ msg,
     response_status response = Raise (AttributeError msg) →
     _handle_response config now response store
     = Ok (attach url
             {| resp_status := 0; resp_statusText := None;
                resp_headers := None; resp_timestamp := now;
                resp__is_json := None; resp__response_obj := None;
                resp_body := None; resp_bodyText := None;
                resp_body_error := None;
                resp_error := Some msg |} store)) ∧
  (∀ msg,
     response_status response = Raise (Exception msg) →
     _handle_response config now response store = Ok store).
Proof.
  intros Hurl Hex. unfold _handle_response.
  destruct store as [|r0 store0] eqn:Hstore; [done|].
  rewrite <-Hstore in *. rewrite Hurl; simpl mbind. rewrite Hex.
  split_and!.
  - intros status e Hstatus [Htext|[Htext Hheaders]]; rewrite Hstatus; simpl.
    + by rewrite Htext.
    + destruct (response_status_text response); [|done]. simpl.
      by rewrite Hheaders.
  - intros msg Hstatus. by rewrite Hstatus.
  - intros msg Hstatus. by rewrite Hstatus.
Qed.

End ResponseListener.

(** ** From a response to the snapshot *)

Section BodyResolution.
Context {L : PyLib}.

(** The loop attaches at the earliest unmatched request, wherever it is. *)
Lemma attach_at url d (store : list request_entry) i r :
  store !! i = Some r → entry_url r = url → entry_response r = None →
  (∀ j r', (j < i)%nat → store !! j = Some r' → entry_url r' = url →
           is_Some (entry_response r')) →
  existsb (unmatched url) store = true ∧
  attach url d store = <[i := set_response d r]> store.
Proof.
  intros Hi Hu Hn Hearlier.
  assert (existsb (unmatched url) store = true) as Hex.
  { apply existsb_exists. exists r. split.
    - apply list_elem_of_In. by eapply list_elem_of_lookup_2.
    - by apply unmatched_true. }
  split; [done|].
  destruct (attach_earliest url d store Hex) as (i' & r' & Hi' & Hr' & Hearlier' & ->).
  assert (i' = i) as ->.
  { destruct (Nat.lt_trichotomy i' i) as [Hlt|[->|Hgt]]; [|done|].
    - apply unmatched_true in Hr' as [Hu' Hn'].
      destruct (Hearlier i' r' Hlt Hi' Hu') as [? ?]. congruence.
    - pose proof (Hearlier' i r Hgt Hi) as Hf.
      destruct (proj1 (unmatched_false url r) Hf Hu). congruence. }
  by simplify_eq.
Qed.

(** The stored response, after the pass, of a request that has just
    received the data the listener built. *)
Lemma resolved_built_response config url response status status_text headers now
    (r : request_entry) :
  let marked :=
    capture_response_body config
    && (contains "json" (lower (content_type_of headers)) || endswith url ".json") in
  ∃ ds,
    entry_response
      (resolved (set_response
                   (build_response_data config url response status status_text
                      headers now) r)) = Some ds ∧
    resp_status ds = status ∧ resp_statusText ds = Some status_text ∧
    resp_headers ds = Some headers ∧ resp_timestamp ds = now ∧
    (marked = false →
       resp_body ds = None ∧ resp_bodyText ds = None ∧ resp_body_error ds = None) ∧
    (marked = true → ∀ text parsed,
       response_text response = Ok text → json_loads text = Some parsed →
       resp_body ds = Some parsed ∧ resp_bodyText ds = None ∧
       resp_body_error ds = None) ∧
    (marked = true → ∀ text,
       response_text response = Ok text → json_loads text = None →
       resp_body ds = None ∧ resp_bodyText ds = Some text ∧
       resp_body_error ds = None) ∧
    (marked = true → ∀ e,
       response_text response = Raise e →
       resp_body ds = None ∧ resp_bodyText ds = None ∧
       resp_body_error ds = Some (str_exn e)).
Proof.
  intros marked. subst marked.
  unfold resolved, resolve_entry, build_response_data. simpl.
  destruct (capture_response_body config); simpl.
  2: { eexists. split; [reflexivity|]. by split_and!. }
  destruct (contains "json" (lower (content_type_of headers))
            || endswith url ".json"); simpl.
  2: { eexists. split; [reflexivity|]. by split_and!. }
  unfold fetch_body.
  destruct (response_text response) as [text|e]; simpl.
  - destruct (json_loads text) as [parsed|] eqn:Hparsed; simpl.
    + eexists. split; [reflexivity|]. simpl. split_and!; try done.
      * intros _ text' parsed' [= <-] Hp. by simplify_eq.
      * intros _ text' [= <-] Hp. congruence.
    + eexists. split; [reflexivity|]. simpl. split_and!; try done.
      * intros _ text' parsed' [= <-] Hp. congruence.
      * by intros _ text' [= <-] _.
  - eexists. split; [reflexivity|]. simpl. split_and!; try done.
    by intros _ e' [= <-].
Qed.

(** X12.  From listener to snapshot.  A readable response is attached to
    the earliest waiting request for its URL; a retrieval whose bound
    covers the store then returns that request with its response: status,
    status text, headers and clock reading, and the body under [body] when
    it parses as JSON, under [bodyText] when it does not.  The body is
    fetched only when body capture is on and the content type mentions json
    or the URL ends in .json; otherwise, and when the fetch raises, the
    snapshot has neither key, and in the latter case the store keeps the
    message of the exception under [body_error]. *)
Theorem response_body_in_snapshot (config : capture_config) (now : Z)
    (response : response) (store : list request_entry)
    (url : string) (status : Z) (status_text : string)
    (headers : gmap string string) (i : nat) (r : request_entry) (last_n : Z) :
  response_url response = Ok url →
  response_status response = Ok status →
  response_status_text response = Ok status_text →
  response_headers response = Ok headers →
  store !! i = Some r → entry_url r = url → entry_response r = None →
  (∀ j r', (j < i)%nat → store !! j = Some r' → entry_url r' = url →
           is_Some (entry_response r')) →
  Z.of_nat (length store) <= last_n →
  let marked :=
    capture_response_body config
    && (contains "json" (lower (content_type_of headers)) || endswith url ".json") in
  ∃ store1 e stored d ds,
    _handle_response config now response store = Ok store1 ∧
    e ∈ (get_network_requests last_n store1).1 ∧
    (get_network_requests last_n store1).2 !! i = Some stored ∧
    same_request e r ∧ same_request stored r ∧
    entry_response e = Some d ∧ entry_response stored = Some ds ∧
    resp_status d = status ∧ resp_statusText d = Some status_text ∧
    resp_headers d = Some headers ∧ resp_timestamp d = now ∧
    resp_body d = resp_body ds ∧ resp_bodyText d = resp_bodyText ds ∧
    (marked = false →
       resp_body ds = None ∧ resp_bodyText ds = None ∧ resp_body_error ds = None) ∧
    (marked = true → ∀ text parsed,
       response_text response = Ok text → json_loads text = Some parsed →
       resp_body ds = Some parsed ∧ resp_bodyText ds = None ∧
       resp_body_error ds = None) ∧
    (marked = true → ∀ text,
       response_text response = Ok text → json_loads text = None →
       resp_body ds = None ∧ resp_bodyText ds = Some text ∧
       resp_body_error ds = None) ∧
    (marked = true → ∀ err,
       response_text response = Raise err →
       resp_body ds = None ∧ resp_bodyText ds = None ∧
       resp_body_error ds = Some (str_exn err)).
Proof.
  intros Hurl Hst Htxt Hhd Hi Hu Hn Hearlier Hbound marked.
  set (d0 := build_response_data config url response status status_text
               headers now).
  destruct (attach_at url d0 store i r Hi Hu Hn Hearlier) as [Hex Hattach].
  pose proof (_handle_response_ok config now response store url status
                status_text headers Hurl Hst Htxt Hhd Hex) as Hrun.
  fold d0 in Hrun. rewrite Hattach in Hrun.
  assert (<[i:=set_response d0 r]> store !! i = Some (set_response d0 r)) as Hi1.
  { apply list_lookup_insert_eq. by eapply lookup_lt_Some. }
  destruct (resolved_built_response config url response status status_text
              headers now r)
    as (ds & Hds & Hs1 & Hs2 & Hs3 & Hs4 & Hunmarked & Hjson & Htext & Herr).
  fold d0 in Hds.
  exists (<[i:=set_response d0 r]> store),
    (clean_request (resolved (set_response d0 r))),
    (resolved (set_response d0 r)), (clean_response ds), ds.
  split_and!; try done.
  - rewrite get_network_requests_returned, most_recent_all.
    2: { by rewrite !length_map, length_insert. }
    rewrite sorted_perm.
    apply list_elem_of_In, in_map, in_map, list_elem_of_In.
    by eapply list_elem_of_lookup_2.
  - rewrite get_network_requests_store.
    change (map resolved ?l) with (resolved <$> l).
    by rewrite list_lookup_fmap, Hi1.
  - apply (resolved_same_request (set_response d0 r)).
  - apply (resolved_same_request (set_response d0 r)).
  - simpl. by rewrite Hds.
Qed.

Lemma resolved_not_pending (r : request_entry) :
  resolve_entry (resolved r) = (resolved r, false).
Proof.
  unfold resolved, resolve_entry.
  destruct (entry_response r) as [d|] eqn:Hr; simpl; [|by rewrite Hr].
  destruct (pending d) eqn:Hp; simpl; [|by rewrite Hr, Hp].
  destruct (resp__response_obj d) as [obj|] eqn:Hobj; simpl.
  2: { by rewrite Hr, Hp, Hobj. }
  by destruct (fetch_body obj d).
Qed.

Lemma resolved_resolved (r : request_entry) : resolved (resolved r) = resolved r.
Proof. unfold resolved at 1. by rewrite resolved_not_pending. Qed.

Lemma _process_json_responses_again (store : list request_entry) :
  _process_json_responses (map resolved store) = (map resolved store, 0).
Proof.
  induction store as [|r store IH]; [done|].
  simpl. by rewrite resolved_not_pending, IH.
Qed.

Lemma get_network_requests_pair last_n (store : list request_entry) :
  get_network_requests last_n store
  = (most_recent entry_timestamp last_n (map clean_request (map resolved store)),
     map resolved store).
Proof.
  rewrite (surjective_pairing (get_network_requests last_n store)).
  by rewrite get_network_requests_returned, get_network_requests_store.
Qed.

(** X13.  The resolution pass is done once and for all: run again on the
    store it left, it fetches nothing, counts nothing and changes nothing;
    and a second [get_network_requests] with the same bound returns the
    same list and leaves the same store. *)
Theorem resolution_pass_idempotent (store : list request_entry) (last_n : Z) :
  _process_json_responses (_process_json_responses store).1
  = ((_process_json_responses store).1, 0) ∧
  get_network_requests last_n (get_network_requests last_n store).2
  = get_network_requests last_n store.
Proof.
  split.
  - rewrite _process_json_responses_store. apply _process_json_responses_again.
  - rewrite (get_network_requests_pair last_n store); simpl.
    rewrite get_network_requests_pair.
    assert (map resolved (map resolved store) = map resolved store) as ->; [|done].
    rewrite map_map. apply map_ext. intros r. apply resolved_resolved.
Qed.

(** X14.  For a bound that is not negative [get_network_requests] returns
    as many entries as the bound allows, and prefers the most recent: none
    of the requests left out is newer than a request returned. *)
Theorem network_snapshot_most_recent (last_n : Z) (store : list request_entry) :
  0 <= last_n →
  let returned := (get_network_requests last_n store).1 in
  length returned = Nat.min (Z.to_nat last_n) (length store) ∧
  ∃ dropped,
    map (λ r, clean_request (resolved r)) store ≡ₚ dropped ++ returned ∧
    ∀ d e, d ∈ dropped → e ∈ returned → entry_timestamp d <= entry_timestamp e.
Proof.
  intros Hn returned. subst returned.
  rewrite get_network_requests_returned, map_map.
  destruct (most_recent_priority entry_timestamp last_n
              (map (λ r, clean_request (resolved r)) store) Hn)
    as (dropped & Hperm & Hlen & Hold).
  rewrite length_map in Hlen. split; [done|]. by exists dropped.
Qed.

(** X15.  With a bound of at least the size of the store,
    [get_network_requests] returns the clean copy of every stored request,
    sorted by timestamp with requests of equal timestamp in store order;
    when the store is already in timestamp order, as it is under a clock
    that does not go back, that is the store order. *)
Theorem network_snapshot_complete (last_n : Z) (store : list request_entry) :
  Z.of_nat (length store) <= last_n →
  (get_network_requests last_n store).1
  = sorted entry_timestamp false (map (λ r, clean_request (resolved r)) store) ∧
  (StronglySorted by_timestamp store →
   (get_network_requests last_n store).1
   = map (λ r, clean_request (resolved r)) store).
Proof.
  intros Hn.
  assert ((get_network_requests last_n store).1
          = sorted entry_timestamp false
              (map (λ r, clean_request (resolved r)) store)) as Hall.
  { rewrite get_network_requests_returned, map_map.
    apply most_recent_all. by rewrite length_map. }
  split; [done|]. intros Hsorted. rewrite Hall. apply sorted_id.
  change (map ?f store) with (f <$> store).
  apply (StronglySorted_fmap _ by_timestamp); [|done].
  intros a b Hab. unfold in_order. simpl.
  destruct (resolved_same_request a) as (_ & _ & _ & -> & _).
  destruct (resolved_same_request b) as (_ & _ & _ & -> & _).
  exact Hab.
Qed.

End BodyResolution.

(** ** The store between two clearings *)

Section AppendOnly.
Context {L : PyLib}.

Lemma attach_lookup url d (store : list request_entry) i r :
  store !! i = Some r →
  attach url d store !! i = Some r ∨
  (entry_response r = None ∧ attach url d store !! i = Some (set_response d r)).
Proof.
  revert i. induction store as [|r0 store IH]; intros i Hi; [done|].
  simpl. destruct (unmatched url r0) eqn:Hun.
  - destruct i as [|i]; simpl in *; [|by left].
    simplify_eq. right. apply unmatched_true in Hun as [_ Hnone]. by split.
  - destruct i as [|i]; simpl in *; [by left|]. by apply IH.
Qed.

Lemma console_handler_total now message (logs : list log_entry) :
  ∃ r, _handle_console_message now message logs = Ok (logs ++ [r]).
Proof.
  unfold _handle_console_message, try_except.
  destruct (console_entry now message); simpl; by eexists.
Qed.

Lemma on_console_buffers now message (self : manager) :
  ∃ r, console_logs (on_console now message self).2 = console_logs self ++ [r] ∧
       network_requests (on_console now message self).2 = network_requests self.
Proof.
  destruct (console_handler_total now message (console_logs self)) as [r Hr].
  exists r. unfold on_console, mbind, method_bind, get_self, call, assign.
  by rewrite Hr.
Qed.

(** X16.  Between two clearings the buffers only grow.  Under any event
    other than [open_browser] and [close_browser], the console buffer is
    extended at its end, if at all; no request leaves the store or changes
    place; and a stored request keeps its URL, method, headers, timestamp,
    resource type, id, post data and error marker, and keeps a response
    once it has one. *)
Theorem buffers_append_only (ev : event) (self : manager) :
  clears ev = false →
  console_logs self `prefix_of` console_logs (step ev self) ∧
  (length (network_requests self) ≤ length (network_requests (step ev self)))%nat ∧
  ∀ i r, network_requests self !! i = Some r →
    ∃ r', network_requests (step ev self) !! i = Some r' ∧
          same_request r' r ∧ entry_error r' = entry_error r ∧
          (is_Some (entry_response r) → is_Some (entry_response r')).
Proof.
  assert (∀ r : request_entry, same_request r r) as Hrefl by done.
  destruct ev as [now message|now now_except request|now response
    |start url headless|last_n|last_n| |updates]; try done; intros _; simpl.
  - destruct (on_console_buffers now message self) as (r & -> & ->).
    split_and!; [by apply prefix_app_r|done|]. intros i r0 Hi. by exists r0.
  - unfold on_request, mbind, method_bind, get_self, assign, call.
    destruct (_handle_request _ _ _ _ _) as [store'|e] eqn:Hh; simpl.
    2: { split_and!; [done..|]. intros i r0 Hi. by exists r0. }
    apply _handle_request_store in Hh as [->|(entry & _ & ->)].
    { split_and!; [done..|]. intros i r0 Hi. by exists r0. }
    split_and!; [done|rewrite length_app; lia|].
    intros i r0 Hi. exists r0. split_and!; try done.
    by apply lookup_app_l_Some.
  - pose proof (on_response_store now response self) as Hrun.
    destruct (_handle_response _ _ _ _) as [store'|e] eqn:Hh; rewrite Hrun;
      simpl.
    2: { split_and!; [done..|]. intros i r0 Hi. by exists r0. }
    apply _handle_response_cases in Hh as [->|(url & d & _ & _ & _ & ->)].
    { split_and!; [done..|]. intros i r0 Hi. by exists r0. }
    split_and!; [done|by rewrite attach_length|].
    intros i r0 Hi.
    destruct (attach_lookup url d _ i r0 Hi) as [Hsame|[Hnone Hset]].
    + by exists r0.
    + exists (set_response d r0). by split_and!.
  - split_and!; [done..|]. intros i r0 Hi. by exists r0.
  - unfold tool_get_network_requests, mbind, method_bind, get_self, assign,
      mret, method_ret.
    pose proof (get_network_requests_store last_n (network_requests self)) as Hst.
    destruct (get_network_requests last_n (network_requests self))
      as [returned store']. simpl in *. subst store'.
    split_and!; [done|by rewrite length_map|].
    intros i r0 Hi. exists (resolved r0). split_and!.
    + change (map resolved ?l) with (resolved <$> l).
      by rewrite list_lookup_fmap, Hi.
    + apply resolved_same_request.
    + unfold resolved, resolve_entry.
      destruct (entry_response r0) as [d|]; [|done].
      destruct (pending d); [|done].
      destruct (resp__response_obj d) as [obj|]; [|done].
      by destruct (fetch_body obj d).
    + intros [d Hd]. unfold resolved, resolve_entry. rewrite Hd.
      destruct (pending d); [|simpl; by rewrite Hd].
      destruct (resp__response_obj d) as [obj|]; [|simpl; by rewrite Hd].
      by destruct (fetch_body obj d).
  - split_and!; [done..|]. intros i r0 Hi. by exists r0.
Qed.

End AppendOnly.


(** ** Configuration *)

Section Configuration.
Context {L : PyLib}.

Lemma default_union {A} (x : A) (later earlier : option A) :
  default (default x earlier) later = default x (later ∪ earlier).
Proof. by destruct later, earlier. Qed.

Lemma configure_request_capture_later (later earlier : config_updates)
    (c : capture_config) :
  configure_request_capture later (configure_request_capture earlier c)
  = configure_request_capture (later_wins later earlier) c.
Proof.
  unfold configure_request_capture, later_wins; simpl.
  by rewrite !default_union.
Qed.

Lemma configure_request_capture_none (c : capture_config) :
  configure_request_capture no_updates c = c.
Proof. by destruct c. Qed.

Lemma configure_request_capture_twice (u : config_updates) (c : capture_config) :
  configure_request_capture u (configure_request_capture u c)
  = configure_request_capture u c.
Proof.
  destruct u as [a1 a2 a3 a4 a5 a6 a7].
  unfold configure_request_capture; simpl.
  by destruct a1, a2, a3, a4, a5, a6, a7.
Qed.

(** X17.  [configure_network_capture] returns the configuration it leaves
    in the manager, which [get_network_capture_config] then reads back; it
    touches neither buffer.  In that configuration every field for which an
    argument was given has the value given, and every other field the value
    it had; so after a call with [enabled] false the request listener
    records nothing.  A call without arguments changes nothing, the same
    call twice is the same as once, and of two calls in a row the later one
    wins, field by field. *)
Theorem configuration_laws (later earlier : config_updates) (self : manager) :
  let config := request_capture_config self in
  let self1 := (configure_network_capture earlier self).2 in
  let config1 := request_capture_config self1 in
  configure_network_capture earlier self = (Ok config1, self1) ∧
  get_network_capture_config self1 = (Ok config1, self1) ∧
  enabled config1 = default (enabled config) (upd_enabled earlier) ∧
  include_patterns config1
  = default (include_patterns config) (upd_include_patterns earlier) ∧
  exclude_patterns config1
  = default (exclude_patterns config) (upd_exclude_patterns earlier) ∧
  include_types config1
  = default (include_types config) (upd_include_types earlier) ∧
  exclude_types config1
  = default (exclude_types config) (upd_exclude_types earlier) ∧
  capture_post_data config1
  = default (capture_post_data config) (upd_capture_post_data earlier) ∧
  capture_response_body config1
  = default (capture_response_body config) (upd_capture_response_body earlier) ∧
  (upd_enabled earlier = Some false →
   ∀ now now_except request,
     step (RequestEvent now now_except request) self1 = self1) ∧
  console_logs self1 = console_logs self ∧
  network_requests self1 = network_requests self ∧
  configure_network_capture no_updates self = (Ok config, self) ∧
  configure_network_capture earlier self1 = (Ok config1, self1) ∧
  configure_network_capture later self1
  = configure_network_capture (later_wins later earlier) self.
Proof.
  unfold configure_network_capture, get_network_capture_config, mbind,
    method_bind, get_self, assign, mret, method_ret.
  destruct self as [pw b p logs store init hl config]; simpl.
  split_and!; try reflexivity.
  - intros Hoff now now_except request.
    unfold on_request, _handle_request, _should_capture_request, mbind,
      method_bind, get_self, assign, call; simpl.
    by rewrite Hoff.
  - by rewrite configure_request_capture_none.
  - unfold set_request_capture_config; simpl.
    by rewrite configure_request_capture_twice.
  - unfold set_request_capture_config; simpl.
    by rewrite configure_request_capture_later.
Qed.

End Configuration.

(** ** Session lifecycle, continued *)

Section Lifecycle.
Context {L : PyLib}.

(** X18.  [initialize] does not launch twice: on a manager that is
    initialized it makes no call to the engine, whatever such a call would
    give, returns, and changes nothing but the recorded [headless] flag; so
    the browser that runs keeps the mode it was launched with. *)
Theorem initialize_once (start : result playwright_handle) (headless : bool)
    (self : manager) :
  is_initialized self = true →
  initialize start headless self = (Ok (), set_headless (Some headless) self) ∧
  browser (initialize start headless self).2 = browser self ∧
  playwright (initialize start headless self).2 = playwright self ∧
  page (initialize start headless self).2 = page self.
Proof.
  intros Hinit.
  unfold initialize, mbind, method_bind, get_self, assign, call, mret, method_ret.
  simpl. by rewrite Hinit.
Qed.

(** X19.  What a call of [initialize] on a manager that is not initialized
    leaves.  If it returns, the engine started and the browser launched in
    the mode asked for, the manager holds both and is initialized.  If it
    raises, the manager is still not initialized and holds the browser it
    held; either the engine did not start and nothing new is held, or the
    launch failed and the engine just started stays held. *)
Theorem initialize_outcomes (start : result playwright_handle) (mode : bool)
    (self self' : manager) :
  is_initialized self = false →
  (initialize start mode self = (Ok (), self') →
   ∃ pw b, start = Ok pw ∧ chromium_launch pw mode = Ok b ∧
           playwright self' = Some pw ∧ browser self' = Some b ∧
           is_initialized self' = true ∧
           headless self' = Some mode) ∧
  (∀ e, initialize start mode self = (Raise e, self') →
        is_initialized self' = false ∧ browser self' = browser self ∧
        (start = Raise e ∧ playwright self' = playwright self ∨
         ∃ pw, start = Ok pw ∧ chromium_launch pw mode = Raise e ∧
               playwright self' = Some pw)).
Proof.
  intros Hinit.
  unfold initialize, mbind, method_bind, get_self, assign, call, mret, method_ret.
  simpl. rewrite Hinit.
  assert ((if mode then true else false) = mode) as -> by (by destruct mode).
  destruct start as [pw|e0]; simpl.
  - destruct (chromium_launch pw mode) as [b|e0] eqn:Hlaunch; simpl.
    + split; [|done]. intros [= <-]. by exists pw, b.
    + split; [done|]. intros e [= <- <-]. split_and!; [done..|].
      right. by exists pw.
  - split; [done|]. intros e [= <- <-]. split_and!; [done..|]. by left.
Qed.

(** The listeners touch the two buffers only. *)
Lemma listen_frame (ev : page_event) (self : manager) :
  page (listen ev self).2 = page self ∧
  browser (listen ev self).2 = browser self ∧
  playwright (listen ev self).2 = playwright self ∧
  is_initialized (listen ev self).2 = is_initialized self ∧
  headless (listen ev self).2 = headless self ∧
  request_capture_config (listen ev self).2 = request_capture_config self.
Proof.
  destruct ev as [now message|now now_except request|now response]; simpl.
  - unfold on_console, mbind, method_bind, get_self, assign, call.
    by destruct (_handle_console_message _ _ _).
  - unfold on_request, mbind, method_bind, get_self, assign, call.
    by destruct (_handle_request _ _ _ _ _).
  - unfold on_response, mbind, method_bind, get_self, assign, call.
    by destruct (_handle_response _ _ _ _).
Qed.

Lemma deliver_frame (events : list page_event) (self : manager) :
  page (deliver events self) = page self ∧
  browser (deliver events self) = browser self ∧
  playwright (deliver events self) = playwright self ∧
  is_initialized (deliver events self) = is_initialized self ∧
  headless (deliver events self) = headless self ∧
  request_capture_config (deliver events self) = request_capture_config self.
Proof.
  revert self. induction events as [|ev events IH]; intros self; simpl; [done|].
  destruct (IH (listen ev self).2) as (-> & -> & -> & -> & -> & ->).
  apply listen_frame.
Qed.

(** What the listeners record depends on the buffers and on the
    configuration only. *)
Lemma listen_buffers (ev : page_event) (s1 s2 : manager) :
  console_logs s1 = console_logs s2 →
  network_requests s1 = network_requests s2 →
  request_capture_config s1 = request_capture_config s2 →
  console_logs (listen ev s1).2 = console_logs (listen ev s2).2 ∧
  network_requests (listen ev s1).2 = network_requests (listen ev s2).2.
Proof.
  intros Hlogs Hstore Hconfig.
  destruct ev as [now message|now now_except request|now response]; simpl.
  - unfold on_console, mbind, method_bind, get_self, assign, call.
    rewrite Hlogs. by destruct (_handle_console_message _ _ _).
  - unfold on_request, mbind, method_bind, get_self, assign, call.
    rewrite Hstore, Hconfig. by destruct (_handle_request _ _ _ _ _).
  - unfold on_response, mbind, method_bind, get_self, assign, call.
    rewrite Hstore, Hconfig. by destruct (_handle_response _ _ _ _).
Qed.

Lemma deliver_buffers (events : list page_event) (s1 s2 : manager) :
  console_logs s1 = console_logs s2 →
  network_requests s1 = network_requests s2 →
  request_capture_config s1 = request_capture_config s2 →
  console_logs (deliver events s1) = console_logs (deliver events s2) ∧
  network_requests (deliver events s1) = network_requests (deliver events s2).
Proof.
  revert s1 s2. induction events as [|ev events IH]; intros s1 s2 Hlogs Hstore Hconfig;
    simpl; [done|].
  destruct (listen_buffers ev s1 s2 Hlogs Hstore Hconfig) as [Hlogs' Hstore'].
  apply IH; [done..|].
  destruct (listen_frame ev s1) as (_ & _ & _ & _ & _ & ->).
  by destruct (listen_frame ev s2) as (_ & _ & _ & _ & _ & ->).
Qed.

(** Delivering the events of a navigation is handling them one by one. *)
Lemma deliver_steps (events : list page_event) (self : manager) :
  deliver events self
  = fold_left (fun self ev => step ev self) (map as_event events) self.
Proof.
  revert self. induction events as [|ev events IH]; intros self; simpl; [done|].
  rewrite IH. by destruct ev.
Qed.

(** The outcomes of [open_url]: either it raised before a new page was
    held, or a new page was made, the events of the navigation were
    delivered to a manager with empty buffers, and the outcome is the one
    of the navigation. *)
Lemma open_url_cases (start : result playwright_handle) (url : string)
    (mode : bool) (navigation : list page_event) (self : manager) :
  let '(outcome, self') := open_url start url mode navigation self in
  request_capture_config self' = request_capture_config self ∧
  (is_initialized self = true →
   browser self' = browser self ∧ playwright self' = playwright self ∧
   headless self' = headless self ∧ is_initialized self' = true) ∧
  ((∃ e, outcome = Raise e ∧ page self' = page self ∧
         (console_logs self' = console_logs self ∧
          network_requests self' = network_requests self ∨
          console_logs self' = [] ∧ network_requests self' = [])) ∨
   (∃ b p, browser self' = Some b ∧ browser_new_page b = Ok p ∧
           page self' = Some p ∧ is_initialized self' = true ∧
           self' = deliver navigation (open_url start url mode [] self).2 ∧
           console_logs self'
           = console_logs
               (deliver navigation
                  (set_network_requests [] (set_console_logs [] self))) ∧
           network_requests self'
           = network_requests
               (deliver navigation
                  (set_network_requests [] (set_console_logs [] self))) ∧
           outcome
           = match page_goto p url with
             | Ok _ =>
                 Ok ("Opened " +:+ url +:+
                     " successfully. The browser window will remain open for you to interact with.")
             | Raise e => Raise e
             end)).
Proof.
  assert (∀ s0 : manager,
    console_logs s0 = [] → network_requests s0 = [] →
    request_capture_config s0 = request_capture_config self →
    console_logs (deliver navigation s0)
    = console_logs
        (deliver navigation (set_network_requests [] (set_console_logs [] self))) ∧
    network_requests (deliver navigation s0)
    = network_requests
        (deliver navigation (set_network_requests [] (set_console_logs [] self))))
    as Hbuffers.
  { intros s0 Hlogs Hstore Hconfig. apply deliver_buffers; [| |].
    - by rewrite Hlogs; destruct self.
    - by rewrite Hstore; destruct self.
    - by rewrite Hconfig; destruct self. }
  unfold open_url, initialize, mbind, method_bind, get_self, assign, call,
    mret, method_ret. simpl.
  assert ((if mode then true else false) = mode) as -> by (by destruct mode).
  destruct self as [pw b p logs store init hl config]; simpl in *.
  destruct init; simpl.
  - destruct p as [p|]; [destruct (page_close p) as [[]|] eqn:Hclose; simpl|];
      (destruct b as [b|]; simpl; [destruct (browser_new_page b) as [p'|] eqn:Hnew;
         simpl|]).
    all: try (split_and!; [done|done|left; eexists; split_and!; eauto]; fail).
    all: match goal with
         | Hbuffers : _ |- context [deliver ?n ?s] =>
             destruct (deliver_frame n s) as (Hp & Hb & Hpw & Hi & Hh & Hc);
             destruct (Hbuffers s eq_refl eq_refl eq_refl) as [Hl Hs]
         end.
    all: destruct (page_goto p' url) as [[]|] eqn:Hgoto; simpl.
    all: split_and!; [by rewrite Hc|by rewrite Hb, Hpw, Hh, Hi|].
    all: right; exists b, p'; rewrite Hb, Hp, Hi, Hl, Hs, Hgoto; by split_and!.
  - destruct start as [pw'|]; simpl;
      [|split_and!; [done|done|left; eexists; split_and!; eauto]].
    destruct (chromium_launch pw' mode) as [b'|]; simpl;
      [|split_and!; [done|done|left; eexists; split_and!; eauto]].
    destruct p as [p|]; [destruct (page_close p) as [[]|] eqn:Hclose; simpl|];
      (try (destruct (browser_new_page b') as [p'|] eqn:Hnew; simpl)).
    all: try (split_and!; [done|done|left; eexists; split_and!; eauto]; fail).
    all: match goal with
         | Hbuffers : _ |- context [deliver ?n ?s] =>
             destruct (deliver_frame n s) as (Hp & Hb & Hpw & Hi & Hh & Hc);
             destruct (Hbuffers s eq_refl eq_refl eq_refl) as [Hl Hs]
         end.
    all: destruct (page_goto p' url) as [[]|] eqn:Hgoto; simpl.
    all: split_and!; [by rewrite Hc|done|].
    all: right; exists b', p'; rewrite Hb, Hp, Hi, Hl, Hs, Hgoto; by split_and!.
Qed.


(** X21.  What a call of [open_url] that raises leaves.  The configuration
    is untouched.  Either the navigation of the new page failed: the page
    is held, the exception is the one of the navigation, and the manager is
    the one a silent failed navigation would leave, after the listeners,
    registered before the navigation, have handled its events one by one;
    the buffers hold what they recorded of these events starting from empty
    buffers.  Or no new page was made: the manager holds the page it held,
    and the buffers are both as they were or both empty. *)
Theorem open_url_raises (start : result playwright_handle) (url : string)
    (mode : bool) (navigation : list page_event) (self self' : manager)
    (e : exn) :
  open_url start url mode navigation self = (Raise e, self') →
  request_capture_config self' = request_capture_config self ∧
  ((∃ p, page self' = Some p ∧ page_goto p url = Raise e ∧
         self'
         = fold_left (fun self ev => step ev self) (map as_event navigation)
             (step (OpenBrowser start url mode []) self) ∧
         console_logs self'
         = console_logs
             (deliver navigation
                (set_network_requests [] (set_console_logs [] self))) ∧
         network_requests self'
         = network_requests
             (deliver navigation
                (set_network_requests [] (set_console_logs [] self)))) ∨
   (page self' = page self ∧
    (console_logs self' = console_logs self ∧
     network_requests self' = network_requests self ∨
     console_logs self' = [] ∧ network_requests self' = []))).
Proof.
  intros Hrun. pose proof (open_url_cases start url mode navigation self) as Hcases.
  rewrite Hrun in Hcases.
  destruct Hcases as (Hconfig & _ & [(e' & _ & Hpage & Hkept)|Hmade]).
  - split; [done|]. by right.
  - destruct Hmade as (b & p & Hb & Hnew & Hp & Hi & Hself & Hlogs & Hstore & Hout).
    destruct (page_goto p url) as [[]|e'] eqn:Hgoto; [done|].
    injection Hout as ->.
    split; [done|]. left. exists p. split_and!; try done.
    by rewrite <-deliver_steps.
Qed.

(** The three places where [close] can fail. *)
Lemma close_failure_cases (self self' : manager) (e : exn) :
  close self = (Raise e, self') →
  (∃ p, page self = Some p ∧ page_close p = Raise e ∧ self' = self) ∨
  (∃ b, browser self = Some b ∧ browser_close b = Raise e ∧
        self' = set_page None self) ∨
  (∃ pw, playwright self = Some pw ∧ playwright_stop pw = Raise e ∧
         self' = set_browser None (set_page None self)).
Proof.
  unfold close, mbind, method_bind, get_self, assign, call, mret, method_ret.
  destruct self as [pw b p logs store init hl config]; simpl.
  destruct p as [p|]; [destruct (page_close p) as [[]|e1] eqn:Hp; simpl|].
  2: { intros [= <- <-]. left. by exists p. }
  all: destruct b as [b|]; [destruct (browser_close b) as [[]|e2] eqn:Hb; simpl|].
  all: try (intros [= <- <-]; right; left; by exists b).
  all: destruct pw as [pw|]; [destruct (playwright_stop pw) as [[]|e3] eqn:Hpw; simpl|];
    try done.
  all: intros [= <- <-]; right; right; by exists pw.
Qed.

(** X22.  A call of [close] that raises keeps both buffers, the
    configuration and the initialized flag, and gives up the handles in
    order: the exception comes from closing the page, and nothing changed;
    or from closing the browser, and only the page was let go; or from
    stopping the engine, and the page and the browser were let go. *)
Theorem close_raises (self self' : manager) (e : exn) :
  close self = (Raise e, self') →
  console_logs self' = console_logs self ∧
  network_requests self' = network_requests self ∧
  request_capture_config self' = request_capture_config self ∧
  is_initialized self' = is_initialized self ∧
  ((∃ p, page self = Some p ∧ page_close p = Raise e ∧ self' = self) ∨
   (∃ b, browser self = Some b ∧ browser_close b = Raise e ∧
         page self' = None ∧ browser self' = Some b ∧
         playwright self' = playwright self) ∨
   (∃ pw, playwright self = Some pw ∧ playwright_stop pw = Raise e ∧
          page self' = None ∧ browser self' = None ∧
          playwright self' = Some pw)).
Proof.
  intros [(p & Hp & Hclose & ->)|[(b & Hb & Hclose & ->)|(pw & Hpw & Hstop & ->)]]
    %close_failure_cases.
  - split_and!; try done. left. by exists p.
  - split_and!; try done. right. left. by exists b.
  - split_and!; try done. right. right. by exists pw.
Qed.

(** X23.  After a [close] that failed while stopping the engine, the
    manager still counts as initialized but holds no browser: [open_url]
    then skips the launch, empties the buffers and raises the
    [AttributeError] of calling [new_page] on [None], whatever the engine
    would answer, until a later [close] gets through. *)
Theorem failed_stop_blocks_open_url (self self' : manager) (e : exn)
    (start : result playwright_handle) (url : string) (mode : bool)
    (navigation : list page_event) :
  is_initialized self = true →
  close self = (Raise e, self') →
  page self' = None → browser self' = None →
  open_url start url mode navigation self'
  = (Raise (AttributeError "'NoneType' object has no attribute 'new_page'"),
     set_network_requests [] (set_console_logs [] self')) ∧
  ∀ self'', close self' = (Ok (), self'') → is_initialized self'' = false.
Proof.
  intros Hinit Hclose Hpage Hbrowser.
  assert (is_initialized self' = true) as Hinit'.
  { apply close_failure_cases in Hclose
      as [(p & _ & _ & ->)|[(b & _ & _ & ->)|(pw & _ & _ & ->)]]; done. }
  split.
  - unfold open_url, mbind, method_bind, get_self, assign, call, mret, method_ret.
    destruct self' as [pw b p logs store init hl config]; simpl in *.
    by subst.
  - intros self'' Hagain. apply close_returns in Hagain. by subst self''.
Qed.

(** Every step keeps the handles nested. *)
Lemma step_handles_nested (ev : event) (self : manager) :
  handles_nested self → handles_nested (step ev self).
Proof.
  intros [Hpage Hbrowser].
  destruct ev as [now message|now now_except request|now response
    |start url mode navigation|last_n|last_n| |updates]; simpl.
  - unfold on_console, mbind, method_bind, get_self, assign, call.
    by destruct (_handle_console_message _ _ _).
  - unfold on_request, mbind, method_bind, get_self, assign, call.
    by destruct (_handle_request _ _ _ _ _).
  - unfold on_response, mbind, method_bind, get_self, assign, call.
    by destruct (_handle_response _ _ _ _).
  - unfold handles_nested, open_url, initialize, mbind, method_bind, get_self,
      assign, call, mret, method_ret in *.
    destruct self as [pw b p logs store init hl config]; simpl in *.
    repeat (case_match; simplify_eq/=);
      repeat match goal with
             | |- context [deliver ?n ?s] =>
                 destruct (deliver_frame n s) as (-> & -> & -> & _)
             end; simpl;
      split; intros [? ?]; simplify_eq; first [done|by eexists|eauto].
  - done.
  - unfold tool_get_network_requests, mbind, method_bind, get_self, assign,
      mret, method_ret.
    by destruct (get_network_requests _ _).
  - unfold handles_nested, close_browser, close, mbind, method_bind, get_self,
      assign, call, mret, method_ret in *.
    destruct self as [pw b p logs store init hl config]; simpl in *.
    repeat (case_match; simplify_eq/=); split; intros [? ?]; simplify_eq;
      first [done|by eexists|eauto].
  - done.
Qed.

(** X24.  Whatever the history of events and calls, and whatever fails in
    it, the manager never holds a page without the browser, nor a browser
    without the engine. *)
Theorem handles_always_nested (history : list event) :
  handles_nested (run history).
Proof.
  unfold run.
  assert (handles_nested initial) as Hinit.
  { split; by intros [? ?]. }
  revert Hinit. generalize initial.
  induction history as [|ev history IH]; intros self Hs; [done|].
  simpl. apply IH. by apply step_handles_nested.
Qed.

End Lifecycle.

(** ** Further runs *)

Lemma accepted_request_recorded_witness :
  ∃ entry,
    _handle_request (L := sample_lib) api_documents 10 11 document_request []
    = Ok [entry] ∧
    entry_url entry = "https://example.test/api/items"%string ∧
    entry_response entry = None.
Proof.
  destruct (accepted_request_recorded (L := sample_lib) api_documents 10 11
              document_request [] "https://example.test/api/items" "POST"
              "document"
              {[ "content-type"%string := "application/JSON; charset=utf-8"%string ]}
              (Some "true"%string) eq_refl eq_refl eq_refl eq_refl
              (λ _, eq_refl) eq_refl)
    as (entry & Hrun & Hurl & _ & _ & _ & _ & _ & Hresponse & _).
  exists entry. split_and!; assumption.
Defined.

Lemma request_listener_raises_witness :
  _handle_request (L := sample_lib) ill_formed_pattern 4 4 document_request []
  = Raise (Exception "missing ), unterminated subpattern at position 0").
Proof.
  apply (proj2 (request_listener_raises (L := sample_lib) ill_formed_pattern 4 4
                  document_request []
                  (Exception "missing ), unterminated subpattern at position 0"))).
  left. reflexivity.
Defined.

Lemma degraded_request_recorded_witness :
  _handle_request (L := sample_lib) default_config 4 5 headerless_request []
  = Ok [ {| entry_url := "https://example.test/upload"; entry_method := "PUT";
            entry_headers := None; entry_timestamp := 5;
            entry_resourceType := None; entry_id := None;
            entry_postData := None; entry_postDataJSON := None;
            entry_response := None;
            entry_error := Some "headers are gone"%string |} ].
Proof.
  exact (proj1 (degraded_request_recorded (L := sample_lib) default_config 4 5
                  headerless_request [] "https://example.test/upload"
                  (Exception "headers are gone") eq_refl eq_refl)
           "PUT"%string eq_refl (or_introl eq_refl)).
Defined.

Lemma type_filters_come_first_witness :
  _should_capture_request (L := sample_lib) no_scripts script_request = Ok false.
Proof.
  apply (type_filters_come_first (L := sample_lib) no_scripts script_request
           "https://example.test/app.js" "script" eq_refl eq_refl eq_refl).
  right. simpl. by left.
Defined.

Lemma pattern_loops_stop_at_first_match_witness :
  _should_capture_request (L := sample_lib) api_then_garbage document_request
  = Ok true.
Proof.
  refine (proj1 (pattern_loops_stop_at_first_match (L := sample_lib)
                   api_then_garbage document_request
                   "https://example.test/api/items" "document"
                   [] ["("%string] "/api/" eq_refl eq_refl eq_refl
                   (or_introl eq_refl) _ _ eq_refl) eq_refl _).
  - simpl. apply not_elem_of_nil.
  - intros q Hq. by apply elem_of_nil in Hq.
  - intros q Hq. simpl in Hq. apply list_elem_of_singleton in Hq as ->.
    reflexivity.
Defined.

Lemma response_listener_raises_witness :
  _handle_response (L := sample_lib) default_config 5 unreadable_response
    (network_requests two_waiting)
  = Raise (Exception "response is gone").
Proof.
  apply (proj2 (response_listener_raises (L := sample_lib) default_config 5
                  unreadable_response (network_requests two_waiting)
                  (Exception "response is gone"))).
  split; [|reflexivity]. rewrite two_waiting_store. discriminate.
Defined.

Lemma degraded_response_attached_witness :
  _handle_response (L := sample_lib) default_config 5 broken_response
    (network_requests two_waiting)
  = Ok (attach items_url
          {| resp_status := 502; resp_statusText := None;
             resp_headers := None; resp_timestamp := 5;
             resp__is_json := None; resp__response_obj := None;
             resp_body := None; resp_bodyText := None;
             resp_body_error := None;
             resp_error := Some "no status text"%string |}
          (network_requests two_waiting)).
Proof.
  exact (proj1 (degraded_response_attached (L := sample_lib) default_config
                  5 broken_response (network_requests two_waiting)
                  items_url eq_refl eq_refl)
           502 (Exception "no status text") eq_refl (or_introl eq_refl)).
Defined.

Lemma response_body_in_snapshot_witness :
  ∃ e d,
    e ∈ (get_network_requests 10
           (network_requests
              (step (ResponseEvent 5 (items_response 200 (Ok "true"%string)))
                 two_waiting))).1 ∧
    entry_response e = Some d ∧ resp_status d = 200 ∧ resp_body d = Some true.
Proof.
  destruct (response_body_in_snapshot (L := sample_lib) default_config 5
              (items_response 200 (Ok "true"%string))
              (network_requests two_waiting) items_url 200 "OK" json_headers
              0%nat (stored_items 7001 2) 10
              eq_refl eq_refl eq_refl eq_refl eq_refl eq_refl eq_refl
              ltac:(intros j r' Hj; lia) ltac:(vm_compute; discriminate))
    as (store1 & e & stored & d & ds & Hrun & He & _ & _ & _ & Hd & _ & Hstatus
        & _ & _ & _ & Hbody & _ & _ & Hjson & _).
  exists e, d. split_and!.
  - assert (store1
            = network_requests
                (step (ResponseEvent 5 (items_response 200 (Ok "true"%string)))
                   two_waiting)) as <-; [|exact He].
    vm_compute in Hrun. injection Hrun as <-. vm_compute. reflexivity.
  - exact Hd.
  - exact Hstatus.
  - rewrite Hbody. exact (proj1 (Hjson eq_refl "true"%string true eq_refl eq_refl)).
Defined.

Lemma network_snapshot_most_recent_witness :
  length (get_network_requests 1 (network_requests two_waiting)).1 = 1%nat.
Proof.
  exact (proj1 (network_snapshot_most_recent (L := sample_lib) 1
                  (network_requests two_waiting) ltac:(lia))).
Defined.

Lemma network_snapshot_complete_witness :
  (get_network_requests 2 (network_requests two_waiting)).1
  = sorted entry_timestamp false
      (map (λ r, clean_request (resolved r)) (network_requests two_waiting)).
Proof.
  exact (proj1 (network_snapshot_complete (L := sample_lib) 2
                  (network_requests two_waiting)
                  ltac:(vm_compute; discriminate))).
Defined.

Lemma buffers_append_only_witness :
  console_logs two_waiting
    `prefix_of` console_logs (step (RequestEvent 4 4 document_request) two_waiting).
Proof.
  exact (proj1 (buffers_append_only (L := sample_lib)
                  (RequestEvent 4 4 document_request) two_waiting eq_refl)).
Defined.

Lemma configuration_laws_witness :
  enabled
    (request_capture_config (configure_network_capture switch_off two_waiting).2)
  = false ∧
  include_patterns
    (request_capture_config (configure_network_capture switch_off two_waiting).2)
  = ["/api/"%string] ∧
  network_requests
    (step (RequestEvent 9 9 (items_request 7009))
       (configure_network_capture switch_off two_waiting).2)
  = [stored_items 7001 2; stored_items 7002 3].
Proof.
  destruct (configuration_laws (L := sample_lib) no_updates switch_off two_waiting)
    as (_ & _ & Henabled & Hinclude & _ & _ & _ & _ & _ & Hoff & _ & Hstore & _).
  split_and!.
  - exact Henabled.
  - exact Hinclude.
  - rewrite (Hoff eq_refl 9 9 (items_request 7009)). exact Hstore.
Defined.

Lemma initialize_once_witness :
  initialize (L := sample_lib) (Raise (Exception "no engine")) false two_waiting
  = (Ok (), set_headless (Some false) two_waiting).
Proof.
  exact (proj1 (initialize_once (L := sample_lib) (Raise (Exception "no engine"))
                  false two_waiting eq_refl)).
Defined.

Lemma initialize_outcomes_witness :
  is_initialized
    (initialize (L := sample_lib) (Ok quiet_playwright) true initial).2 = true.
Proof.
  destruct (proj1 (initialize_outcomes (L := sample_lib) (Ok quiet_playwright)
                     true initial
                     (initialize (L := sample_lib) (Ok quiet_playwright) true
                        initial).2 eq_refl) eq_refl)
    as (pw & b & _ & _ & _ & _ & Hinit & _).
  exact Hinit.
Defined.


Lemma open_url_raises_witness :
  map entry_id
    (network_requests
       (open_url (L := sample_lib) (Ok lost_playwright) "https://nowhere.test/"
          true loading initial).2)
  = [Some 7003].
Proof.
  destruct (proj2 (open_url_raises (L := sample_lib) (Ok lost_playwright)
                     "https://nowhere.test/" true loading initial
                     (open_url (L := sample_lib) (Ok lost_playwright)
                        "https://nowhere.test/" true loading initial).2
                     (Exception "net::ERR_NAME_NOT_RESOLVED") eq_refl))
    as [(p & _ & _ & _ & _ & Hstore)|[Hpage _]].
  - rewrite Hstore. reflexivity.
  - discriminate Hpage.
Defined.

Lemma close_raises_witness :
  network_requests (close stuck_session).2 = network_requests stuck_session.
Proof.
  destruct (close_raises (L := sample_lib) stuck_session (close stuck_session).2
              (Exception "stop failed") eq_refl)
    as (_ & Hstore & _).
  exact Hstore.
Defined.

Lemma failed_stop_blocks_open_url_witness :
  (open_url (L := sample_lib) (Ok quiet_playwright) "https://example.test/"
     false loading (close stuck_session).2).1
  = Raise (AttributeError "'NoneType' object has no attribute 'new_page'").
Proof.
  rewrite (proj1 (failed_stop_blocks_open_url (L := sample_lib) stuck_session
                    (close stuck_session).2 (Exception "stop failed")
                    (Ok quiet_playwright) "https://example.test/" false loading
                    eq_refl eq_refl eq_refl eq_refl)).
  reflexivity.
Defined.

(** ** Runs of equal console entries *)

Lemma pair_counts_two (k : nat) : pair_counts (S (S k)) = 2 :: pair_counts k.
Proof.
  unfold pair_counts.
  replace (S (S k)) with (k + 1 * 2)%nat by lia.
  rewrite Nat.div_add, Nat.Div0.mod_add by lia.
  replace (k / 2 + 1)%nat with (S (k / 2)) by lia. done.
Qed.

(** A new entry never joins a group whose text differs from its own. *)
Lemma dedup_step_opens (acc : list log_group) (log : log_entry) :
  (∀ g, last acc = Some g → g_text g ≠ log_text log) →
  dedup_step acc log = acc ++ [new_group log].
Proof.
  intros Hlast. unfold dedup_step.
  destruct (last acc) as [g|]; [|done].
  assert (String.eqb (log_text log) (g_text g) = false) as ->.
  { apply String.eqb_neq. intros Heq. by apply (Hlast g). }
  by rewrite orb_true_r.
Qed.

Lemma run_loop (type text : string) (fuel : nat) :
  ∀ (logs : list log_entry) (acc : list log_group),
    (length logs ≤ fuel)%nat →
    Forall (λ e, log_type e = type ∧ log_text e = text) logs →
    (∀ g, last acc = Some g → g_text g ≠ text) →
    map g_count (fold_left dedup_step logs acc)
    = map g_count acc ++ pair_counts (length logs).
Proof.
  induction fuel as [|fuel IH]; intros logs acc Hlen Hsame Hlast.
  { destruct logs; [|simpl in Hlen; lia]. simpl. by rewrite app_nil_r. }
  destruct logs as [|a [|b logs]].
  - simpl. by rewrite app_nil_r.
  - rewrite Forall_singleton in Hsame. destruct Hsame as [Ha1 Ha2]. simpl.
    rewrite (dedup_step_opens acc a) by (intros g Hg; rewrite Ha2; by apply Hlast).
    by rewrite map_app.
  - rewrite !Forall_cons in Hsame.
    destruct Hsame as ([Ha1 Ha2] & [Hb1 Hb2] & Hsame).
    cbn [fold_left].
    rewrite (dedup_step_opens acc a) by (intros g Hg; rewrite Ha2; by apply Hlast).
    assert (dedup_step (acc ++ [new_group a]) b
            = acc ++ [absorb (new_group a) b]) as ->.
    { unfold dedup_step. rewrite last_snoc, removelast_last. simpl.
      rewrite Ha1, Hb1, Ha2, Hb2, !String.eqb_refl. done. }
    rewrite IH; [|simpl in Hlen; lia|done|].
    + cbn [length]. rewrite pair_counts_two, map_app. simpl.
      by rewrite <-app_assoc.
    + intros g. rewrite last_snoc. intros [= <-]. simpl.
      rewrite Hb2. intros Heq.
      by apply (append_nonempty_neq text (" (重复 " +:+ pretty 2 +:+ " 次)")).
Qed.

Lemma get_console_logs_all last_n (logs : list log_entry) :
  Z.of_nat (length (deduplicate (sorted log_timestamp false logs))) <= last_n →
  get_console_logs last_n logs = deduplicate (sorted log_timestamp false logs).
Proof.
  intros Hn. rewrite get_console_logs_most_recent, most_recent_all by done.
  apply sorted_id, deduplicate_ordered.
Qed.

Lemma deduplicate_length (logs : list log_entry) :
  (length (deduplicate logs) ≤ length logs)%nat.
Proof.
  unfold deduplicate.
  assert (∀ acc, length (fold_left dedup_step logs acc) ≤ length acc + length logs)%nat
    as Hgen.
  { induction logs as [|log logs IH]; intros acc; simpl; [lia|].
    etrans; [apply IH|].
    destruct (dedup_step_cases acc log) as [->|(acc' & g & -> & ->)];
      rewrite !length_app; simpl; lia. }
  apply (Hgen []).
Qed.

(** X25.  How a run of equal entries is grouped.  When all the console
    entries have the same type and text, the groups [get_console_logs]
    returns (the bound covering them) have the counts 2, 2, ..., and a last
    1 when the number of entries is odd: a group stops absorbing as soon as
    its text carries the repeat suffix, so no count exceeds 2. *)
Theorem run_grouped_in_pairs (type text : string) (logs : list log_entry)
    (last_n : Z) :
  Forall (λ e, log_type e = type ∧ log_text e = text) logs →
  Z.of_nat (length logs) <= last_n →
  map g_count (get_console_logs last_n logs) = pair_counts (length logs) ∧
  Forall (λ g, g_count g <= 2) (get_console_logs last_n logs).
Proof.
  intros Hsame Hn.
  rewrite get_console_logs_all.
  2: { pose proof (deduplicate_length (sorted log_timestamp false logs)) as Hle.
       rewrite sorted_length in Hle. lia. }
  assert (map g_count (deduplicate (sorted log_timestamp false logs))
          = pair_counts (length logs)) as Hcounts.
  { unfold deduplicate.
    rewrite (run_loop type text (length logs)); simpl.
    - by rewrite sorted_length.
    - by rewrite sorted_length.
    - by rewrite sorted_perm.
    - done. }
  split; [done|].
  apply Forall_forall. intros g Hg.
  assert (g_count g ∈ pair_counts (length logs)) as Hin.
  { rewrite <-Hcounts. apply list_elem_of_In, in_map. by apply list_elem_of_In. }
  unfold pair_counts in Hin.
  apply elem_of_app in Hin as [Hin|Hin]; apply elem_of_replicate in Hin as [-> _];
    lia.
Qed.

Lemma run_grouped_in_pairs_witness :
  map g_count
    (get_console_logs 5
       [entry_at "info" "a" 1; entry_at "info" "a" 2; entry_at "info" "a" 3;
        entry_at "info" "a" 4; entry_at "info" "a" 5])
  = [2; 2; 1].
Proof.
  exact (proj1 (run_grouped_in_pairs "info" "a"
                  [entry_at "info" "a" 1; entry_at "info" "a" 2;
                   entry_at "info" "a" 3; entry_at "info" "a" 4;
                   entry_at "info" "a" 5] 5
                  ltac:(repeat constructor) ltac:(simpl; lia))).
Defined.

(** ** Recording and closing *)

Section Recording.
Context {L : PyLib}.

(** X26.  A request is recorded exactly when the filter accepts it: when
    the request listener returns, either the filter rejected the request
    and the store is as it was, or the filter accepted it and the store has
    one more entry at its end, with the URL of the request and no
    response. *)
Theorem recorded_when_accepted (config : capture_config) (now now_except : Z)
    (request : request) (store store' : list request_entry) :
  _handle_request config now now_except request store = Ok store' →
  (_should_capture_request config request = Ok false ∧ store' = store) ∨
  (_should_capture_request config request = Ok true ∧
   ∃ entry, store' = store ++ [entry] ∧ entry_response entry = None ∧
            request_url request = Ok (entry_url entry)).
Proof.
  unfold _handle_request.
  destruct (_should_capture_request config request) as [[]|] eqn:Hcapture;
    simpl; [|by intros [= <-]; left|done].
  apply accepted_readable in Hcapture as (_ & url & resource_type & Hurl & Htype).
  rewrite Hurl, Htype. simpl. unfold try_except. intros Hrun. right.
  split; [done|].
  destruct (request_method request) as [method|e1]; simpl in Hrun.
  - destruct (request_headers request) as [headers|e2]; simpl in Hrun.
    + destruct (with_post_data _ _ _ _) as [entry|e3] eqn:Hpost; simpl in Hrun.
      * injection Hrun as <-. exists entry. split; [done|].
        rewrite (with_post_data_response _ _ _ _ _ Hpost). split; [done|].
        revert Hpost. unfold with_post_data.
        destruct (capture_post_data config); [|by intros [= <-]].
        destruct (request_post_data request) as [[data|]|]; simpl;
          [|by intros [= <-]|done].
        destruct (truthy_str data); [|by intros [= <-]].
        destruct (contains _ _); [|by intros [= <-]].
        destruct (json_loads data); by intros [= <-].
      * injection Hrun as <-. eexists. by split_and!.
    + injection Hrun as <-. eexists. by split_and!.
  - destruct e1 as [msg|msg]; simpl in Hrun; [|done].
    injection Hrun as <-. eexists. by split_and!.
Qed.

(** X27.  A [close_browser] that returns gives the fixed confirmation and
    resets the manager to what [__init__] makes, two attributes apart: the
    capture configuration and the recorded [headless] flag survive. *)
Theorem close_browser_resets (self self' : manager) (confirmation : string) :
  close_browser self = (Ok confirmation, self') →
  confirmation = "浏览器已成功关闭"%string ∧
  self' = set_headless (headless self)
            (set_request_capture_config (request_capture_config self) initial).
Proof.
  unfold close_browser, mbind at 1, method_bind at 1, mret, method_ret.
  destruct (close self) as [[[]|e] self1] eqn:Hclose; [|done].
  intros [= <- <-]. apply close_returns in Hclose. by subst self1.
Qed.

End Recording.

Lemma recorded_when_accepted_witness :
  _should_capture_request (L := sample_lib) no_scripts script_request = Ok false ∧
  _handle_request (L := sample_lib) no_scripts 4 4 script_request
    (network_requests two_waiting)
  = Ok (network_requests two_waiting).
Proof.
  destruct (recorded_when_accepted (L := sample_lib) no_scripts 4 4
              script_request (network_requests two_waiting)
              (network_requests two_waiting) eq_refl)
    as [[Hrejected _]|[Haccepted _]].
  - split; [exact Hrejected|reflexivity].
  - discriminate Haccepted.
Defined.

Lemma close_browser_resets_witness :
  request_capture_config
    (close_browser
       (set_request_capture_config api_documents two_waiting)).2
  = api_documents.
Proof.
  destruct (close_browser_resets (L := sample_lib)
              (set_request_capture_config api_documents two_waiting)
              (close_browser
                 (set_request_capture_config api_documents two_waiting)).2
              "浏览器已成功关闭" eq_refl)
    as [_ ->].
  reflexivity.
Defined.
